(** * mcvm: the download layer (src/net/net.cc)

    A shallow embedding of [DownloadHelper], [MultiDownloadHelper] and
    [download_cached_file], together with the small part of libc and
    libcurl that these functions drive.  The C++ objects become records,
    every method becomes a function that takes the object and the outside
    world and returns both, and a C++ exception becomes an outcome value
    that still carries the state reached when it was thrown. *)

From Stdlib Require Import NArith ZArith Strings.Byte Strings.Ascii Floats.
From stdpp Require Import gmap strings list fin_maps.

Open Scope N_scope.
Open Scope nat_scope.

(** Contents of a file and of a [std::string] used as a byte buffer. *)
Abbreviation bytes := (list byte).

(** ** The outside world *)

(** [CURLcode] and [CURLMcode] are C enums; only their numeric value
    matters to the code, which compares against [CURLE_OK] and tests
    [if (code)]. *)
Abbreviation CURLcode := nat (only parsing).
Definition CURLE_OK : CURLcode := 0.
Definition CURLE_URL_MALFORMAT : CURLcode := 3.
Definition CURLE_COULDNT_RESOLVE_HOST : CURLcode := 6.
Definition CURLE_WRITE_ERROR : CURLcode := 23.

(** What the remote side answers for one URL: the body as the chunks the
    transport hands to the write callback, the final result code and the
    message libcurl would put in an error buffer. *)
Record Response := {
  body_chunks : list bytes;
  result : CURLcode;
  errtext : string;
}.

(** Observable actions, in the order they happen. *)
Inductive Event :=
| EvOpen (f : nat) (path : string)      (* fopen succeeded, stream f *)
| EvClose (f : nat)                     (* fclose(f) *)
| EvPerform (h : nat) (url : option string) (* curl_easy_perform on handle h *)
| EvCleanup (h : nat)                   (* curl_easy_cleanup *)
| EvStdout (b : bytes)                  (* libcurl's default write target *)
| EvOut (s : string)                    (* OUT_NEWLINE *)
| EvRepl (s : string)                   (* OUT_REPL *)
| EvErr (s : string).                   (* ERR macro *)

Record World := {
  fs : gmap string bytes;          (* regular files, by path *)
  open_files : gmap nat string;    (* open FILE streams and their path *)
  next_file : nat;                 (* next fresh stream *)
  free_space : N;                  (* bytes the device still accepts *)
  fopen_errno : gmap string Z;     (* paths fopen refuses, with the errno *)
  errno : Z;
  net : gmap string Response;      (* the remote side *)
  next_easy : nat;                 (* next fresh easy handle *)
  trace : list Event;
}.

Definition log (e : Event) (w : World) : World :=
  {| fs := fs w; open_files := open_files w; next_file := next_file w;
     free_space := free_space w; fopen_errno := fopen_errno w;
     errno := errno w; net := net w; next_easy := next_easy w;
     trace := trace w ++ [e] |}.

(** Number of [fclose] calls made on stream [f]. *)
Definition is_close (f : nat) (e : Event) : bool :=
  match e with EvClose g => Nat.eqb f g | _ => false end.

Definition close_count (f : nat) (w : World) : nat :=
  length (List.filter (is_close f) (trace w)).

(** Number of [curl_easy_perform] calls. *)
Definition is_perform (e : Event) : bool :=
  match e with EvPerform _ _ => true | _ => false end.

Definition perform_count (w : World) : nat :=
  length (List.filter is_perform (trace w)).

(** ** libc: streams *)

(** A [FILE*]; [None] is the null pointer. *)
Abbreviation FILEptr := (option nat).

(** [fopen(path, "wb")]: refused paths set [errno] and give a null
    pointer; otherwise the file is created or truncated and a fresh
    stream is returned. *)
Definition fopen_wb (path : string) (w : World) : FILEptr * World :=
  match fopen_errno w !! path with
  | Some e =>
      (None,
       {| fs := fs w; open_files := open_files w; next_file := next_file w;
          free_space := free_space w; fopen_errno := fopen_errno w;
          errno := e; net := net w; next_easy := next_easy w;
          trace := trace w |})
  | None =>
      let f := next_file w in
      (Some f,
       {| fs := <[path := []]> (fs w);
          open_files := <[f := path]> (open_files w);
          next_file := S f;
          free_space := free_space w; fopen_errno := fopen_errno w;
          errno := errno w; net := net w; next_easy := next_easy w;
          trace := trace w ++ [EvOpen f path] |})
  end.

(** [fclose(f)].  The call is recorded even when [f] is no longer open
    (undefined behaviour in C), so that a second close stays visible.
    Such a call is only recorded here and the run goes on, where a C
    library may abort the program. *)
Definition fclose (f : nat) (w : World) : World :=
  {| fs := fs w; open_files := delete f (open_files w);
     next_file := next_file w;
     free_space := free_space w; fopen_errno := fopen_errno w;
     errno := errno w; net := net w; next_easy := next_easy w;
     trace := trace w ++ [EvClose f] |}.

(** [size_t] multiplication. *)
Definition size_mul (a b : N) : N := ((a * b) mod 2 ^ 64)%N.

(** [fwrite(buffer, size, nmemb, stream)]: the device takes as many of
    the requested bytes as it has room for; the result is the number of
    complete items written.  The stream is taken without a buffer, so a
    full device shows in the count of the call that meets it; a buffered
    stream would report it at a later call or at [fclose].  A null or
    closed stream (undefined behaviour in C) writes nothing. *)
Definition fwrite (buffer : bytes) (size nmemb : N) (stream : FILEptr)
    (w : World) : N * World :=
  let request := size_mul size nmemb in
  if (request =? 0)%N then (0%N, w) else
  match stream ≫= (λ f, open_files w !! f) with
  | None => (0%N, w)
  | Some path =>
      let accepted := N.min request (free_space w) in
      let data := take (N.to_nat accepted) buffer in
      (if (accepted =? request)%N then nmemb else (accepted / size)%N,
       {| fs := alter (λ old, old ++ data) path (fs w);
          open_files := open_files w; next_file := next_file w;
          free_space := (free_space w - accepted)%N;
          fopen_errno := fopen_errno w;
          errno := errno w; net := net w; next_easy := next_easy w;
          trace := trace w |})
  end.

(** ** Sink: the write callbacks (net.cc, lines 14-32) *)

(** [CurlResult] (declared in net.hh): the sink of one download. *)
Record CurlResult := {
  file : FILEptr;
  str : bytes;
}.

Definition write_data_to_file (buffer : bytes) (size nmemb : N)
    (curl_result : CurlResult) (w : World) : N * CurlResult * World :=
  let '(n, w') := fwrite buffer size nmemb (file curl_result) w in
  (n, curl_result, w').

Definition write_data_to_str (buffer : bytes) (size nmemb : N)
    (curl_result : CurlResult) (w : World) : N * CurlResult * World :=
  let write_size := size_mul size nmemb in
  (write_size,
   {| file := file curl_result;
      str := str curl_result ++ take (N.to_nat write_size) buffer |},
   w).

Definition write_data_to_file_and_str (buffer : bytes) (size nmemb : N)
    (curl_result : CurlResult) (w : World) : N * CurlResult * World :=
  let '(written, result1, w1) :=
    write_data_to_file buffer size nmemb curl_result w in
  let '(_, result2, w2) := write_data_to_str buffer size nmemb result1 w1 in
  (written, result2, w2).

(** ** libcurl: easy handles *)

(** The three write callbacks, as the function pointers handed to
    [CURLOPT_WRITEFUNCTION]. *)
Inductive WriteFunction := WriteToFile | WriteToStr | WriteToFileAndStr.

Definition call_write (fn : WriteFunction) :
    bytes → N → N → CurlResult → World → N * CurlResult * World :=
  match fn with
  | WriteToFile => write_data_to_file
  | WriteToStr => write_data_to_str
  | WriteToFileAndStr => write_data_to_file_and_str
  end.

(** An easy handle: its identity (the [CURL*] address) and the options
    the code sets on it.  [opt_writedata] and [opt_errorbuffer] say
    whether the handle currently points at the owning helper's [res] and
    [errbuf]. *)
Record CURL := {
  easy_id : nat;
  opt_url : option string;
  opt_writefunction : option WriteFunction;
  opt_writedata : bool;
  opt_errorbuffer : bool;
}.

Definition default_options (i : nat) : CURL :=
  {| easy_id := i; opt_url := None; opt_writefunction := None;
     opt_writedata := false; opt_errorbuffer := false |}.

Definition curl_easy_init (w : World) : CURL * World :=
  (default_options (next_easy w),
   {| fs := fs w; open_files := open_files w; next_file := next_file w;
      free_space := free_space w; fopen_errno := fopen_errno w;
      errno := errno w; net := net w; next_easy := S (next_easy w);
      trace := trace w |}).

(** [curl_easy_reset]: libcurl documents it as re-initialising all
    options previously set on the handle to their default values.  The
    error buffer registered with [CURLOPT_ERRORBUFFER] is one of them;
    the handle itself stays. *)
Definition curl_easy_reset (h : CURL) : CURL := default_options (easy_id h).

Definition setopt_URL (url : string) (h : CURL) : CURL :=
  {| easy_id := easy_id h; opt_url := Some url;
     opt_writefunction := opt_writefunction h;
     opt_writedata := opt_writedata h;
     opt_errorbuffer := opt_errorbuffer h |}.

Definition setopt_WRITEFUNCTION (fn : WriteFunction) (h : CURL) : CURL :=
  {| easy_id := easy_id h; opt_url := opt_url h;
     opt_writefunction := Some fn;
     opt_writedata := opt_writedata h;
     opt_errorbuffer := opt_errorbuffer h |}.

Definition setopt_WRITEDATA (h : CURL) : CURL :=
  {| easy_id := easy_id h; opt_url := opt_url h;
     opt_writefunction := opt_writefunction h;
     opt_writedata := true;
     opt_errorbuffer := opt_errorbuffer h |}.

Definition setopt_ERRORBUFFER (h : CURL) : CURL :=
  {| easy_id := easy_id h; opt_url := opt_url h;
     opt_writefunction := opt_writefunction h;
     opt_writedata := opt_writedata h;
     opt_errorbuffer := true |}.

(** The transport hands the body to the write callback chunk by chunk,
    always with [size = 1]; a callback result different from the chunk
    length aborts the transfer. *)
Fixpoint deliver (fn : WriteFunction) (chunks : list bytes)
    (r : CurlResult) (w : World) : bool * CurlResult * World :=
  match chunks with
  | [] => (true, r, w)
  | c :: rest =>
      let len := N.of_nat (length c) in
      let '(n, r', w') := call_write fn c 1%N len r w in
      if (n =? len)%N then deliver fn rest r' w' else (false, r', w')
  end.

(** ** DownloadHelper (net.cc, lines 54-140) *)

(** [ProgressData] is declared in net.hh; the enumerators of its style
    are not used by net.cc. *)
Abbreviation ProgressStyle := nat (only parsing).

Record ProgressData := {
  style : ProgressStyle;
  title : string;
  is_used : bool;
}.

Inductive DownloadMode := FILE | STR | FILE_AND_STR.

Record DownloadHelper := {
  handle : CURL;
  res : CurlResult;
  errbuf : string;
  progress_data : ProgressData;
}.

(** [curl_easy_perform(handle)]: one transport call.  The message of a
    failed transfer reaches [errbuf] only while the handle has it as
    [CURLOPT_ERRORBUFFER]. *)
Definition curl_easy_perform (self : DownloadHelper) (w : World) :
    CURLcode * DownloadHelper * World :=
  let h := handle self in
  let w0 := log (EvPerform (easy_id h) (opt_url h)) w in
  let finish (code : CURLcode) (msg : string) (r : CurlResult) (w' : World) :=
    (code,
     {| handle := h; res := r;
        errbuf := if opt_errorbuffer h
                  then (if Nat.eqb code CURLE_OK then "" else msg)
                  else errbuf self;
        progress_data := progress_data self |},
     w') in
  match opt_url h with
  | None => finish CURLE_URL_MALFORMAT "No URL set" (res self) w0
  | Some url =>
      match net w0 !! url with
      | None =>
          finish CURLE_COULDNT_RESOLVE_HOST "Could not resolve host"
                 (res self) w0
      | Some resp =>
          let '(ok, r, w1) :=
            match opt_writefunction h, opt_writedata h with
            | Some fn, true => deliver fn (body_chunks resp) (res self) w0
            | None, false =>
                (true, res self, log (EvStdout (concat (body_chunks resp))) w0)
            | _, _ => (false, res self, w0)
            end in
          if ok then finish (result resp) (errtext resp) r w1
          else finish CURLE_WRITE_ERROR
                      "Failure writing output to destination" r w1
      end
  end.

(** The output macros live in print.hh; [OUT_NEWLINE] writes a line
    feed and [ERR] writes its argument to the error stream. *)
Definition OUT_NEWLINE (w : World) : World :=
  log (EvOut (String (Ascii.ascii_of_nat 10) "")) w.

Definition ERR (msg : string) (w : World) : World := log (EvErr msg) w.

(** What [set_options] throws. *)
Record FileOpenError := {
  fo_path : string;
  fo_errno : Z;
}.

(** How a call that may throw ends. *)
Inductive Outcome (A : Type) :=
| Return (a : A)
| Throw (e : FileOpenError).
Arguments Return {A} a.
Arguments Throw {A} e.

(** The constructor.  The members it does not touch start as net.hh
    declares them: no stream, an empty string, no progress meter. *)
Definition new_DownloadHelper (w : World) : DownloadHelper * World :=
  let '(h, w') := curl_easy_init w in
  ({| handle := setopt_ERRORBUFFER h;
      res := {| file := None; str := [] |};
      errbuf := "";
      progress_data := {| style := 0; title := ""; is_used := false |} |},
   w').

(** The [switch (mode)] of [set_options]: the callback bound to each
    mode. *)
Definition callback_of (mode : DownloadMode) : WriteFunction :=
  match mode with
  | FILE => WriteToFile
  | STR => WriteToStr
  | FILE_AND_STR => WriteToFileAndStr
  end.

Definition set_options (mode : DownloadMode) (url path : string)
    (self : DownloadHelper) (w : World) :
    Outcome unit * DownloadHelper * World :=
  (* Reset *)
  let h := curl_easy_reset (handle self) in
  let w1 := match file (res self) with
            | Some f => fclose f w
            | None => w
            end in
  let h := setopt_URL url h in
  let opened :=
    match mode with
    | FILE | FILE_AND_STR =>
        let '(f, w2) := fopen_wb path w1 in
        match f with
        | Some _ => (Return tt, f, w2)
        | None =>
            (Throw {| fo_path := path; fo_errno := errno w2 |}, f,
             ERR "Downloader failed to open file!" w2)
        end
    | STR => (Return tt, file (res self), w1)
    end in
  let '(o, f, w3) := opened in
  let r := {| file := f; str := [] |} in
  match o with
  | Throw e =>
      (Throw e,
       {| handle := h; res := r; errbuf := errbuf self;
          progress_data := progress_data self |}, w3)
  | Return _ =>
      (Return tt,
       {| handle := setopt_WRITEDATA
                      (setopt_WRITEFUNCTION (callback_of mode) h);
          res := r; errbuf := errbuf self;
          progress_data := progress_data self |}, w3)
  end.

Definition perform (self : DownloadHelper) (w : World) :
    bool * DownloadHelper * World :=
  let '(success, self1, w1) := curl_easy_perform self w in
  let '(self2, w2) :=
    match file (res self1) with
    | Some f =>
        ({| handle := handle self1;
            res := {| file := None; str := str (res self1) |};
            errbuf := errbuf self1;
            progress_data := progress_data self1 |}, fclose f w1)
    | None => (self1, w1)
    end in
  let w3 := if is_used (progress_data self2)
            then OUT_NEWLINE w2 else w2 in
  if negb (Nat.eqb success CURLE_OK)
  then (false, self2, ERR (errbuf self2) w3)
  else (true, self2, w3).

Definition sha1_checksum (self : DownloadHelper) (checksum : string) : bool :=
  (* TODO: Temporary *)
  true.

(** The whole body of [add_progress_meter] is commented out in net.cc. *)
Definition add_progress_meter (style : ProgressStyle) (title : string)
    (self : DownloadHelper) : DownloadHelper := self.

Definition get_str (self : DownloadHelper) : bytes := str (res self).

Definition get_err (self : DownloadHelper) : string := errbuf self.

(** The destructor. *)
Definition delete_DownloadHelper (self : DownloadHelper) (w : World) : World :=
  let w1 := log (EvCleanup (easy_id (handle self))) w in
  match file (res self) with
  | Some f => fclose f w1
  | None => w1
  end.

(** ** Cached download (net.cc, lines 204-224) *)

(** Modelled from the spec: [file_exists] is declared in io/files.hh,
    which is not among the sources.  The spec has it test whether the
    path already exists on the local filesystem. *)
Definition file_exists (path : string) (w : World) : bool :=
  bool_decide (is_Some (fs w !! path)).

(** Modelled from the spec: [read_file], from io/files.hh as well, fills
    its second argument with the file's full contents. *)
Definition read_file (path : string) (w : World) : bytes :=
  default [] (fs w !! path).

Definition download_cached_file (url path : string) (download_str : bool)
    (helper : DownloadHelper) (w : World) :
    Outcome bytes * DownloadHelper * World :=
  if file_exists path w then
    if download_str then (Return (read_file path w), helper, w)
    else (Return [], helper, w)
  else
    let mode := if download_str then FILE_AND_STR else FILE in
    let '(o, helper1, w1) := set_options mode url path helper w in
    match o with
    | Throw e => (Throw e, helper1, w1)
    | Return _ =>
        let '(_, helper2, w2) := perform helper1 w1 in
        (Return (get_str helper2), helper2, w2)
    end.

(** ** MultiDownloadHelper (net.cc, lines 142-202) *)

Abbreviation CURLMcode := nat (only parsing).
Definition CURLM_OK : CURLMcode := 0.
Definition CURLM_INTERNAL_ERROR : CURLMcode := 4.

Inductive CURLMSG := CURLMSG_NONE | CURLMSG_DONE | CURLMSG_LAST.

Record CURLMsg := {
  msg : CURLMSG;
  easy_handle : nat;
}.

(** The multi interface of libcurl as [perform_blocking] and [add_helper]
    use it, over any state [M] of the multi handle.
    [curl_multi_perform] receives the current value of the counter it
    writes through its [int*] argument and returns the new one. *)
Class CurlMulti (M : Type) := {
  curl_multi_add_handle : M → nat → M;
  curl_multi_remove_handle : M → nat → M;
  curl_multi_perform : M → Z → CURLMcode * Z * M;
  curl_multi_poll : M → CURLMcode * M;
  curl_multi_info_read : M → option CURLMsg * M;
}.

(** How a run of a loop ends: it returns, it trips an [assert] (as in
    <cassert> without NDEBUG, where a failed assertion aborts the program
    instead of returning), or the fuel given to the loop runs out
    first. *)
Inductive Run (A : Type) :=
| Returned (a : A)
| AssertionFailed
| OutOfFuel.
Arguments Returned {A} a.
Arguments AssertionFailed {A}.
Arguments OutOfFuel {A}.

Section Multi.
Context {M : Type} `{CurlMulti M}.

(** [helpers] maps the easy handle of each registered helper to the
    shared pointer that keeps the helper alive. *)
Record MultiDownloadHelper := {
  mhandle : M;
  helpers : gmap nat DownloadHelper;
  msgs_in_queue : Z;
}.

(** [std::map::insert] keeps an entry that is already there. *)
Definition map_insert (k : nat) (v : DownloadHelper)
    (m : gmap nat DownloadHelper) : gmap nat DownloadHelper :=
  match m !! k with
  | Some _ => m
  | None => <[k := v]> m
  end.

Definition add_helper (helper : DownloadHelper)
    (self : MultiDownloadHelper) : MultiDownloadHelper :=
  let k := easy_id (handle helper) in
  {| mhandle := curl_multi_add_handle (mhandle self) k;
     helpers := map_insert k helper (helpers self);
     msgs_in_queue := msgs_in_queue self |}.

(** The inner [while (true)] loop: read completion messages until
    there is none left. *)
Fixpoint drain (fuel : nat) (self : MultiDownloadHelper) :
    Run MultiDownloadHelper :=
  match fuel with
  | O => OutOfFuel
  | S fuel' =>
      let '(m, mh) := curl_multi_info_read (mhandle self) in
      match m with
      | Some {| msg := CURLMSG_DONE; easy_handle := e |} =>
          (* assert(helpers.contains(easy_handle)) *)
          if bool_decide (is_Some (helpers self !! e)) then
            drain fuel'
              {| mhandle := curl_multi_remove_handle mh e;
                 helpers := delete e (helpers self);
                 msgs_in_queue := msgs_in_queue self |}
          else AssertionFailed
      | Some _ =>
          drain fuel'
            {| mhandle := mh; helpers := helpers self;
               msgs_in_queue := msgs_in_queue self |}
      | None =>
          Returned {| mhandle := mh; helpers := helpers self;
                      msgs_in_queue := msgs_in_queue self |}
      end
  end.

(** The outer [while (msgs_in_queue)] loop. *)
Fixpoint transfer_loop (fuel : nat) (self : MultiDownloadHelper) :
    Run MultiDownloadHelper :=
  if (msgs_in_queue self =? 0)%Z then Returned self else
  match fuel with
  | O => OutOfFuel
  | S fuel' =>
      let '(code, running, mh) :=
        curl_multi_perform (mhandle self) (msgs_in_queue self) in
      let '(code, mh) :=
        if (running =? 0)%Z then (code, mh) else curl_multi_poll mh in
      let self1 := {| mhandle := mh; helpers := helpers self;
                      msgs_in_queue := running |} in
      if negb (Nat.eqb code 0) then Returned self1 (* break *)
      else
        match drain fuel' self1 with
        | Returned self2 => transfer_loop fuel' self2
        | AssertionFailed => AssertionFailed
        | OutOfFuel => OutOfFuel
        end
  end.

Definition perform_blocking (fuel : nat) (self : MultiDownloadHelper) :
    Run (bool * MultiDownloadHelper) :=
  match transfer_loop fuel self with
  | Returned self1 =>
      (* assert(helpers.empty()) *)
      if bool_decide (helpers self1 = ∅) then
        Returned (true,
                  {| mhandle := mhandle self1; helpers := helpers self1;
                     (* Set to one so that the while loop starts *)
                     msgs_in_queue := 1 |})
      else AssertionFailed
  | AssertionFailed => AssertionFailed
  | OutOfFuel => OutOfFuel
  end.

Definition get_helper_count (self : MultiDownloadHelper) : nat :=
  size (helpers self).

End Multi.
Arguments MultiDownloadHelper M : clear implicits.

(** *** The same loops built with NDEBUG

    With NDEBUG defined, <cassert> makes [assert] expand to nothing: a
    completion message for a handle that is not in the map just erases
    nothing, and the function returns whatever the map holds. *)
Section MultiNDEBUG.
Context {M : Type} `{CurlMulti M}.

Fixpoint drain_ndebug (fuel : nat) (self : MultiDownloadHelper M) :
    Run (MultiDownloadHelper M) :=
  match fuel with
  | O => OutOfFuel
  | S fuel' =>
      let '(m, mh) := curl_multi_info_read (mhandle self) in
      match m with
      | Some {| msg := CURLMSG_DONE; easy_handle := e |} =>
          drain_ndebug fuel'
            {| mhandle := curl_multi_remove_handle mh e;
               helpers := delete e (helpers self);
               msgs_in_queue := msgs_in_queue self |}
      | Some _ =>
          drain_ndebug fuel'
            {| mhandle := mh; helpers := helpers self;
               msgs_in_queue := msgs_in_queue self |}
      | None =>
          Returned {| mhandle := mh; helpers := helpers self;
                      msgs_in_queue := msgs_in_queue self |}
      end
  end.

Fixpoint transfer_loop_ndebug (fuel : nat) (self : MultiDownloadHelper M) :
    Run (MultiDownloadHelper M) :=
  if (msgs_in_queue self =? 0)%Z then Returned self else
  match fuel with
  | O => OutOfFuel
  | S fuel' =>
      let '(code, running, mh) :=
        curl_multi_perform (mhandle self) (msgs_in_queue self) in
      let '(code, mh) :=
        if (running =? 0)%Z then (code, mh) else curl_multi_poll mh in
      let self1 := {| mhandle := mh; helpers := helpers self;
                      msgs_in_queue := running |} in
      if negb (Nat.eqb code 0) then Returned self1 (* break *)
      else
        match drain_ndebug fuel' self1 with
        | Returned self2 => transfer_loop_ndebug fuel' self2
        | AssertionFailed => AssertionFailed
        | OutOfFuel => OutOfFuel
        end
  end.

Definition perform_blocking_ndebug (fuel : nat)
    (self : MultiDownloadHelper M) : Run (bool * MultiDownloadHelper M) :=
  match transfer_loop_ndebug fuel self with
  | Returned self1 =>
      Returned (true,
                {| mhandle := mhandle self1; helpers := helpers self1;
                   msgs_in_queue := 1 |})
  | AssertionFailed => AssertionFailed
  | OutOfFuel => OutOfFuel
  end.

End MultiNDEBUG.

(** ** A multi handle that follows the libcurl contract

    Every registered transfer needs a number of rounds of
    [curl_multi_perform]; when it finishes, one [CURLMSG_DONE] message is
    queued for it.  [fault], when not [CURLM_OK], is the error the multi
    handle answers to every perform and poll. *)
Module Sim.

Record SimMulti := {
  transfers : list (nat * option nat); (* handle, rounds left; None: done *)
  inbox : list CURLMsg;
  latency : nat → nat;
  fault : nat;
}.

Definition done_msg (h : nat) : CURLMsg :=
  {| msg := CURLMSG_DONE; easy_handle := h |}.

(** One round of work on a transfer. *)
Definition step (t : nat * option nat) : nat * option nat :=
  (t.1, match t.2 with Some (S n) => Some n | _ => None end).

Definition add_handle (m : SimMulti) (h : nat) : SimMulti :=
  if bool_decide (h ∈ (transfers m).*1) then m
  else {| transfers := transfers m ++ [(h, Some (latency m h))];
          inbox := inbox m; latency := latency m; fault := fault m |}.

Definition remove_handle (m : SimMulti) (h : nat) : SimMulti :=
  {| transfers := filter (λ t, t.1 ≠ h) (transfers m);
     inbox := filter (λ c, easy_handle c ≠ h) (inbox m);
     latency := latency m; fault := fault m |}.

Definition multi_perform (m : SimMulti) (running_handles : Z) :
    nat * Z * SimMulti :=
  if negb (Nat.eqb (fault m) 0) then (fault m, running_handles, m)
  else
    let finished := filter (λ t, t.2 = Some 0) (transfers m) in
    let ts := step <$> transfers m in
    (0, Z.of_nat (length (filter (λ t, is_Some t.2) ts)),
     {| transfers := ts;
        inbox := inbox m ++ (done_msg <$> finished.*1);
        latency := latency m; fault := fault m |}).

Definition multi_poll (m : SimMulti) : nat * SimMulti := (fault m, m).

Definition info_read (m : SimMulti) : option CURLMsg * SimMulti :=
  match inbox m with
  | [] => (None, m)
  | c :: rest =>
      (Some c,
       {| transfers := transfers m; inbox := rest;
          latency := latency m; fault := fault m |})
  end.

Global Instance sim_multi : CurlMulti SimMulti := {
  curl_multi_add_handle := add_handle;
  curl_multi_remove_handle := remove_handle;
  curl_multi_perform := multi_perform;
  curl_multi_poll := multi_poll;
  curl_multi_info_read := info_read;
}.

(** [curl_multi_init]. *)
Definition multi_init (lat : nat → nat) (flt : nat) : SimMulti :=
  {| transfers := []; inbox := []; latency := lat; fault := flt |}.

End Sim.

(** The constructor, on the multi handle above.  The first value of
    [msgs_in_queue] is set in net.hh; it is taken to be the 1 that
    [perform_blocking] puts back on its way out ("Set to one so that the
    while loop starts"). *)
Definition new_MultiDownloadHelper (lat : nat → nat) (flt : nat) :
    MultiDownloadHelper Sim.SimMulti :=
  {| mhandle := Sim.multi_init lat flt; helpers := ∅; msgs_in_queue := 1 |}.

(** ** The progress meter (net.cc, lines 34-52) *)

(** C's [round] (nearest integer, halves away from zero) followed by the
    conversion to [unsigned int].  The conversion is undefined, [None]
    here, for infinities, NaN, and values that round to something
    negative or too large for 32 bits. *)
Definition round_to_uint (x : float) : option N :=
  match Prim2SF x with
  | S754_zero _ => Some 0%N
  | S754_finite s m e =>
      let v := if (0 <=? e)%Z then (Z.pos m * 2 ^ e)%Z
               else ((2 * Z.pos m + 2 ^ (- e)) / (2 * 2 ^ (- e)))%Z in
      if s then (if (v =? 0)%Z then Some 0%N else None)
      else if (v <? 2 ^ 32)%Z then Some (Z.to_N v) else None
  | _ => None
  end.

Definition intervals : nat := 10.

(** The [for] loop that fills the bar. *)
Definition render_bar (count : N) : string :=
  fold_left
    (λ bar i, bar +:+ (if (N.of_nat i <? count)%N then "." else " "))
    (seq 0 intervals) "".

Definition CURL_PROGRESSFUNC_CONTINUE : Z := 268435457.

(** [OUT_REPL] (print.hh) rewrites the current line of the terminal. *)
Definition OUT_REPL (line : string) (w : World) : World := log (EvRepl line) w.

(** [None] stands for the undefined conversion above. *)
Definition progress_callback (data : ProgressData)
    (dltotal dlnow ultotal ulnow : float) (w : World) : option (Z * World) :=
  if negb (PrimFloat.eqb dltotal 0) && negb (PrimFloat.eqb dlnow 0) then
    match round_to_uint (dlnow / dltotal * 10)%float with
    | Some count =>
        Some (CURL_PROGRESSFUNC_CONTINUE,
              OUT_REPL (title data +:+ "[" +:+ render_bar count +:+ "]") w)
    | None => None
    end
  else Some (CURL_PROGRESSFUNC_CONTINUE, w).

(** ** Worlds and runs used in the examples *)

Definition quiet_world : World :=
  {| fs := ∅; open_files := ∅; next_file := 0; free_space := 4096;
     fopen_errno := ∅; errno := 0; net := ∅; next_easy := 0; trace := [] |}.

Definition hello : bytes := [x68; x65; x6c; x6c; x6f]%byte.

(** A world whose disk already holds [cache/a.json]. *)
Definition cached_world : World :=
  {| fs := {[ "cache/a.json" := hello ]}; open_files := ∅; next_file := 0;
     free_space := 4096; fopen_errno := ∅; errno := 0; net := ∅;
     next_easy := 0; trace := [] |}.

(** A world where [http://mirror/a.json] answers with two chunks. *)
Definition online_world : World :=
  {| fs := ∅; open_files := ∅; next_file := 0; free_space := 4096;
     fopen_errno := ∅; errno := 0;
     net := {[ "http://mirror/a.json" :=
                 {| body_chunks := [[x68; x65]%byte; [x6c; x6c; x6f]%byte];
                    result := CURLE_OK; errtext := "" |} ]};
     next_easy := 0; trace := [] |}.

Definition ENOENT : Z := 2.

(** A world where the directory of [missing/a.json] does not exist:
    [fopen] fails there with [ENOENT]. *)
Definition readonly_world : World :=
  {| fs := ∅; open_files := ∅; next_file := 0; free_space := 4096;
     fopen_errno := {[ "missing/a.json" := ENOENT ]}; errno := 0;
     net := net online_world; next_easy := 0; trace := [] |}.

(** A world whose disk has room for three more bytes. *)
Definition full_world : World :=
  {| fs := ∅; open_files := ∅; next_file := 0; free_space := 3;
     fopen_errno := ∅; errno := 0; net := net online_world;
     next_easy := 0; trace := [] |}.

(** Configure for a file, configure again for a string, then perform. *)
Definition reconfigure_then_perform : World :=
  let '(h, w) := new_DownloadHelper quiet_world in
  let '(_, h, w) := set_options FILE "http://mirror/a.json" "a.json" h w in
  let '(_, h, w) := set_options STR "http://mirror/a.json" "a.json" h w in
  let '(_, _, w) := perform h w in
  w.

(** Configure for a file, configure again for a string, then destroy. *)
Definition reconfigure_then_destroy : World :=
  let '(h, w) := new_DownloadHelper quiet_world in
  let '(_, h, w) := set_options FILE "http://mirror/a.json" "a.json" h w in
  let '(_, h, w) := set_options STR "http://mirror/a.json" "a.json" h w in
  delete_DownloadHelper h w.

(** A configured download from a host that does not resolve. *)
Definition failed_download : bool * DownloadHelper * World :=
  let '(h, w) := new_DownloadHelper quiet_world in
  let '(_, h, w) := set_options STR "http://nowhere.invalid/" "a.json" h w in
  perform h w.

(** A download with a progress meter requested. *)
Definition metered_download : bool * DownloadHelper * World :=
  let '(h, w) := new_DownloadHelper online_world in
  let h := add_progress_meter 0 "a.json" h in
  let '(_, h, w) := set_options STR "http://mirror/a.json" "a.json" h w in
  perform h w.

Definition is_out (e : Event) : bool :=
  match e with EvOut _ => true | _ => false end.

(** Two helpers registered with a healthy multi handle; the first needs
    one round, the second three. *)
Definition two_helpers (flt : nat) : MultiDownloadHelper Sim.SimMulti :=
  let '(h1, w) := new_DownloadHelper online_world in
  let '(h2, w) := new_DownloadHelper w in
  add_helper h2 (add_helper h1
    (new_MultiDownloadHelper (λ h, if Nat.eqb h 0 then 0 else 2) flt)).

(** The state [perform_blocking] leaves behind in that run. *)
Definition two_helpers_done : MultiDownloadHelper Sim.SimMulti :=
  {| mhandle := {| Sim.transfers := []; Sim.inbox := [];
                   Sim.latency := λ h, if Nat.eqb h 0 then 0 else 2;
                   Sim.fault := 0 |};
     helpers := ∅; msgs_in_queue := 1 |}.

(** ** Invariants of a run on the lawful multi handle *)

(** The multi handle is healthy, no message waits to be read, every
    registered transfer is still running, and the map of helpers has
    exactly the registered handles as keys. *)
Definition settled (self : MultiDownloadHelper Sim.SimMulti) : Prop :=
  Sim.fault (mhandle self) = 0
  ∧ Sim.inbox (mhandle self) = []
  ∧ NoDup (Sim.transfers (mhandle self)).*1
  ∧ Forall (λ t, is_Some t.2) (Sim.transfers (mhandle self))
  ∧ ∀ h, is_Some (helpers self !! h) ↔ h ∈ (Sim.transfers (mhandle self)).*1.

(** Every registered transfer needs fewer than [n] further rounds. *)
Definition within (n : nat) (self : MultiDownloadHelper Sim.SimMulti) : Prop :=
  Forall (λ t, ∀ k, t.2 = Some k → k < n) (Sim.transfers (mhandle self)).

(** Successive calls of [add_helper]. *)
Definition register_all (hs : list DownloadHelper)
    (self : MultiDownloadHelper Sim.SimMulti) :
    MultiDownloadHelper Sim.SimMulti :=
  foldl (λ s h, add_helper h s) self hs.

(** ** Reading the trace *)

(** The streams opened, the streams closed and the lines printed, each
    in the order of the calls. *)
Definition opened_streams (w : World) : list nat :=
  omap (λ e, match e with EvOpen f _ => Some f | _ => None end) (trace w).

Definition closed_streams (w : World) : list nat :=
  omap (λ e, match e with EvClose f => Some f | _ => None end) (trace w).

Definition stdout_lines (w : World) : list string :=
  omap (λ e, match e with EvOut s => Some s | _ => None end) (trace w).

Definition stderr_lines (w : World) : list string :=
  omap (λ e, match e with EvErr s => Some s | _ => None end) (trace w).

Definition repl_lines (w : World) : list string :=
  omap (λ e, match e with EvRepl s => Some s | _ => None end) (trace w).

(** ** A helper used for several downloads in a row *)

(** One use of a helper, as the second branch of [download_cached_file]
    makes it: [set_options], then [perform] unless [set_options] threw
    (the caller catches the exception and keeps the helper). *)
Definition download (req : DownloadMode * string * string)
    (self : DownloadHelper) (w : World) : DownloadHelper * World :=
  let '(o, self1, w1) := set_options req.1.1 req.1.2 req.2 self w in
  match o with
  | Throw _ => (self1, w1)
  | Return _ => let '(_, self2, w2) := perform self1 w1 in (self2, w2)
  end.

Definition downloads (reqs : list (DownloadMode * string * string))
    (self : DownloadHelper) (w : World) : DownloadHelper * World :=
  foldl (λ sw req, download req sw.1 sw.2) (self, w) reqs.

(** ** lib/util.hh *)

Module Util.

Section Sequences.
Context {A : Type} `{EqDecision A}.

(** [std::string::find(needle)]: the position of the first occurrence
    of [needle], [None] for [npos].  The empty needle is found at 0. *)
Fixpoint find (s needle : list A) : option nat :=
  if decide (needle `prefix_of` s) then Some 0
  else match s with
       | [] => None
       | _ :: s' => S <$> find s' needle
       end.

(** [std::string::replace(pos, len, repl)]: the [len] characters from
    [pos] (fewer at the end of the string) give way to [repl]; a [pos]
    beyond the end throws [std::out_of_range], [None] here. *)
Definition replace (pos len : nat) (repl s : list A) : option (list A) :=
  if decide (pos ≤ length s)
  then Some (take pos s ++ repl ++ drop (pos + len) s)
  else None.

(** [fandr] changes [source] in place; the result is the new value of
    [source], [None] if an exception escapes. *)
Definition fandr (source needle repl : list A) : option (list A) :=
  match find source needle with
  | None => Some source
  | Some pos => replace pos (length needle) repl source
  end.

(** [vec_slice]: the [len] elements from [start].  Moving an iterator
    past the end of the vector is undefined, [None] here. *)
Definition vec_slice (src : list A) (start len : nat) : option (list A) :=
  if decide (start + len ≤ length src)
  then Some (take len (drop start src))
  else None.

End Sequences.

End Util.

(** * Properties *)

(** ** Bookkeeping on the trace *)

Lemma perform_count_log (e : Event) (w : World) :
  perform_count (log e w)
  = perform_count w + (if is_perform e then 1 else 0).
Proof.
  unfold perform_count, log; simpl.
  rewrite List.filter_app, length_app; simpl.
  destruct (is_perform e); reflexivity.
Qed.

Lemma perform_count_fclose (f : nat) (w : World) :
  perform_count (fclose f w) = perform_count w.
Proof.
  unfold perform_count, fclose; simpl.
  rewrite List.filter_app, length_app; simpl. lia.
Qed.

Lemma perform_count_fopen_wb (path : string) (w : World) :
  perform_count (fopen_wb path w).2 = perform_count w.
Proof.
  unfold perform_count, fopen_wb.
  destruct (fopen_errno w !! path); simpl; [reflexivity|].
  rewrite List.filter_app, length_app; simpl. lia.
Qed.

Lemma fwrite_trace (buffer : bytes) (size nmemb : N) (s : FILEptr)
    (w : World) :
  trace (fwrite buffer size nmemb s w).2 = trace w.
Proof.
  unfold fwrite.
  destruct (size_mul size nmemb =? 0)%N; [reflexivity|].
  destruct (s ≫= _); reflexivity.
Qed.

Lemma call_write_trace (fn : WriteFunction) (c : bytes) (size nmemb : N)
    (r : CurlResult) (w : World) :
  trace (call_write fn c size nmemb r w).2 = trace w.
Proof.
  destruct fn; simpl;
    unfold write_data_to_file_and_str, write_data_to_file, write_data_to_str;
    try reflexivity;
    pose proof (fwrite_trace c size nmemb (file r) w) as Hw;
    destruct (fwrite c size nmemb (file r) w); simpl in *; assumption.
Qed.

Lemma call_write_file (fn : WriteFunction) (c : bytes) (size nmemb : N)
    (r : CurlResult) (w : World) :
  file (call_write fn c size nmemb r w).1.2 = file r.
Proof.
  destruct fn; simpl;
    unfold write_data_to_file_and_str, write_data_to_file, write_data_to_str;
    try reflexivity;
    destruct (fwrite c size nmemb (file r) w); reflexivity.
Qed.

Lemma fwrite_open_files (buffer : bytes) (size nmemb : N) (s : FILEptr)
    (w : World) :
  open_files (fwrite buffer size nmemb s w).2 = open_files w.
Proof.
  unfold fwrite.
  destruct (size_mul size nmemb =? 0)%N; [reflexivity|].
  destruct (s ≫= _); reflexivity.
Qed.

Lemma call_write_open_files (fn : WriteFunction) (c : bytes)
    (size nmemb : N) (r : CurlResult) (w : World) :
  open_files (call_write fn c size nmemb r w).2 = open_files w.
Proof.
  destruct fn; simpl;
    unfold write_data_to_file_and_str, write_data_to_file, write_data_to_str;
    try reflexivity;
    pose proof (fwrite_open_files c size nmemb (file r) w) as Hw;
    destruct (fwrite c size nmemb (file r) w); simpl in *; assumption.
Qed.

(** Delivering a body touches neither the trace, nor the stream pointer
    of the sink, nor the table of open streams. *)
Lemma deliver_frame (fn : WriteFunction) (chunks : list bytes) :
  ∀ (r : CurlResult) (w : World),
    let out := deliver fn chunks r w in
    trace out.2 = trace w
    ∧ file out.1.2 = file r
    ∧ open_files out.2 = open_files w.
Proof.
  induction chunks as [|c rest IH]; intros r w; simpl; [done|].
  pose proof (call_write_trace fn c 1%N (N.of_nat (length c)) r w) as Ht.
  pose proof (call_write_file fn c 1%N (N.of_nat (length c)) r w) as Hf.
  pose proof (call_write_open_files fn c 1%N (N.of_nat (length c)) r w) as Ho.
  destruct (call_write fn c 1%N (N.of_nat (length c)) r w) as [[n r'] w'].
  simpl in Ht, Hf, Ho.
  destruct (n =? N.of_nat (length c))%N.
  - destruct (IH r' w') as (IH1 & IH2 & IH3).
    rewrite IH1, IH2, IH3. done.
  - simpl. done.
Qed.

Lemma perform_count_trace (w w' : World) :
  trace w' = trace w → perform_count w' = perform_count w.
Proof. unfold perform_count. intros ->. reflexivity. Qed.

Ltac frame_done :=
  split_and!; try done;
  try (let Hb := fresh in intros Hb; rewrite ?Hb; done).

(** One call of [curl_easy_perform] is one transport call; it leaves the
    stream pointer, the open streams, the handle and the progress data
    alone, and it leaves [errbuf] alone unless the handle has it as its
    error buffer. *)
Lemma curl_easy_perform_frame (self : DownloadHelper) (w : World) :
  let out := curl_easy_perform self w in
  perform_count out.2 = S (perform_count w)
  ∧ file (res out.1.2) = file (res self)
  ∧ open_files out.2 = open_files w
  ∧ handle out.1.2 = handle self
  ∧ progress_data out.1.2 = progress_data self
  ∧ (opt_errorbuffer (handle self) = false → errbuf out.1.2 = errbuf self).
Proof.
  unfold curl_easy_perform.
  set (w0 := log (EvPerform (easy_id (handle self)) (opt_url (handle self))) w).
  assert (Hc0 : perform_count w0 = S (perform_count w)).
  { unfold w0. rewrite perform_count_log. simpl. lia. }
  assert (Ho0 : open_files w0 = open_files w) by reflexivity.
  assert (Hf0 : file (res self) = file (res self)) by reflexivity.
  destruct (opt_url (handle self)) as [url|]; simpl; [|by frame_done].
  destruct (net w !! url) as [resp|]; simpl; [|by frame_done].
  destruct (opt_writefunction (handle self)) as [fn|],
           (opt_writedata (handle self)); simpl; try by frame_done.
  - destruct (deliver_frame fn (body_chunks resp) (res self) w0)
      as (Ht & Hf & Ho).
    destruct (deliver fn (body_chunks resp) (res self) w0) as [[ok r] w1].
    simpl in Ht, Hf, Ho.
    destruct ok; simpl; rewrite (perform_count_trace w0 w1 Ht), Ho;
      by frame_done.
  - rewrite perform_count_log. simpl. frame_done. lia.
Qed.

(** ** The single download: [perform] *)

(** [perform] leaves no stream behind: the pointer is null afterwards
    and the stream it held is no longer open. *)
Lemma perform_closes_file (self : DownloadHelper) (w : World) :
  let out := perform self w in
  file (res out.1.2) = None
  ∧ ∀ f, file (res self) = Some f → open_files out.2 !! f = None.
Proof.
  unfold perform.
  destruct (curl_easy_perform_frame self w) as (_ & Hf & Ho & _).
  destruct (curl_easy_perform self w) as [[success self1] w1].
  simpl in Hf, Ho.
  destruct (file (res self1)) as [f|] eqn:Ef.
  - destruct (negb _), (is_used _); simpl;
      (split; [reflexivity|]); intros g Hg;
      rewrite <- Hf in Hg; injection Hg as <-; apply lookup_delete_eq.
  - destruct (negb _), (is_used _); simpl;
      (split; [assumption|]); intros g Hg; congruence.
Qed.

(** [perform] answers [false] exactly when the transport reports a code
    other than [CURLE_OK]; it has no other way to end. *)
Lemma perform_result (self : DownloadHelper) (w : World) :
  (perform self w).1.1
  = Nat.eqb (curl_easy_perform self w).1.1 CURLE_OK.
Proof.
  unfold perform.
  destruct (curl_easy_perform self w) as [[success self1] w1]; simpl.
  destruct (file (res self1)); destruct (success =? CURLE_OK); reflexivity.
Qed.

Lemma perform_perform_count (self : DownloadHelper) (w : World) :
  perform_count (perform self w).2 = S (perform_count w).
Proof.
  unfold perform.
  destruct (curl_easy_perform_frame self w) as (Hc & _ & _ & _ & Hp & _).
  destruct (curl_easy_perform self w) as [[success self1] w1].
  simpl in Hc, Hp.
  destruct (file (res self1)); simpl;
    destruct (negb _), (is_used _); simpl;
    unfold ERR, OUT_NEWLINE;
    rewrite ?perform_count_log, ?perform_count_fclose; simpl; lia.
Qed.

(** ** Writing a whole body *)

Lemma size_mul_1_l (n : N) : (n < 2 ^ 64)%N → size_mul 1 n = n.
Proof. intros Hn. unfold size_mul. rewrite N.mul_1_l. by apply N.mod_small. Qed.

(** A chunk that fits on the device is written in full. *)
Lemma fwrite_chunk (c : bytes) (f : nat) (path : string) (old : bytes)
    (w : World) :
  open_files w !! f = Some path →
  fs w !! path = Some old →
  (N.of_nat (length c) < 2 ^ 64)%N →
  (N.of_nat (length c) ≤ free_space w)%N →
  let out := fwrite c 1%N (N.of_nat (length c)) (Some f) w in
  out.1 = N.of_nat (length c)
  ∧ fs out.2 !! path = Some (old ++ c)
  ∧ open_files out.2 = open_files w
  ∧ free_space out.2 = (free_space w - N.of_nat (length c))%N.
Proof.
  intros Hopen Hfs Hlt Hle. unfold fwrite.
  rewrite (size_mul_1_l _ Hlt).
  destruct (N.eqb_spec (N.of_nat (length c)) 0) as [Hz|Hnz]; simpl.
  - assert (c = []) as -> by (apply length_zero_iff_nil; lia).
    rewrite app_nil_r, N.sub_0_r. done.
  - rewrite Hopen; simpl.
    rewrite N.min_l by assumption. rewrite N.eqb_refl; simpl.
    rewrite Nat2N.id, firstn_all.
    split_and!; try done.
    rewrite lookup_alter_eq, Hfs. done.
Qed.

Lemma deliver_all (fn : WriteFunction) (f : nat) (path : string)
    (chunks : list bytes) :
  fn ≠ WriteToStr →
  ∀ (r : CurlResult) (w : World) (old : bytes),
    file r = Some f →
    open_files w !! f = Some path →
    fs w !! path = Some old →
    (N.of_nat (length (concat chunks)) < 2 ^ 64)%N →
    (N.of_nat (length (concat chunks)) ≤ free_space w)%N →
    let out := deliver fn chunks r w in
    out.1.1 = true
    ∧ fs out.2 !! path = Some (old ++ concat chunks)
    ∧ str out.1.2
      = match fn with
        | WriteToFile => str r
        | _ => str r ++ concat chunks
        end.
Proof.
  intros Hfn.
  induction chunks as [|c rest IH]; intros r w old Hfile Hopen Hfs Hlt Hle.
  - simpl. rewrite !app_nil_r. by destruct fn.
  - simpl in Hlt, Hle. rewrite length_app in Hlt, Hle.
    assert (Hc1 : (N.of_nat (length c) < 2 ^ 64)%N) by lia.
    assert (Hc2 : (N.of_nat (length c) ≤ free_space w)%N) by lia.
    destruct (fwrite_chunk c f path old w Hopen Hfs Hc1 Hc2)
      as (Hn & Hfs' & Hopen' & Hfree).
    simpl.
    destruct fn; [| congruence |]; simpl;
      unfold write_data_to_file_and_str, write_data_to_file,
             write_data_to_str;
      rewrite Hfile;
      destruct (fwrite c 1 (N.of_nat (length c)) (Some f) w) as [n w'];
      simpl in Hn, Hfs', Hopen', Hfree; subst n;
      rewrite N.eqb_refl, ?Hfile.
    + destruct (IH r w' (old ++ c)) as (H1 & H2 & H3);
        [done | by rewrite Hopen' | done | lia | lia |].
      rewrite H1, H2, H3, <- app_assoc. done.
    + rewrite (size_mul_1_l _ Hc1), Nat2N.id, firstn_all.
      destruct (IH {| file := Some f; str := str r ++ c |} w' (old ++ c))
        as (H1 & H2 & H3); [done | by rewrite Hopen' | done | lia | lia |].
      rewrite H1, H2, H3; simpl. rewrite <- !app_assoc. done.
Qed.

(** The file callback never touches the in-memory string. *)
Lemma deliver_file_str (chunks : list bytes) :
  ∀ (r : CurlResult) (w : World),
    str (deliver WriteToFile chunks r w).1.2 = str r.
Proof.
  induction chunks as [|c rest IH]; intros r w; simpl; [done|].
  unfold write_data_to_file.
  destruct (fwrite c 1 (N.of_nat (length c)) (file r) w) as [n w'].
  destruct (n =? N.of_nat (length c))%N; [apply IH | done].
Qed.

(** What one transport call leaves in the file and in the string, for a
    handle configured with one of the two file callbacks. *)
Lemma curl_easy_perform_body (self : DownloadHelper) (w : World)
    (url : string) (fn : WriteFunction) (f : nat) (path : string)
    (old : bytes) :
  opt_url (handle self) = Some url →
  opt_writefunction (handle self) = Some fn →
  opt_writedata (handle self) = true →
  fn ≠ WriteToStr →
  file (res self) = Some f →
  open_files w !! f = Some path →
  fs w !! path = Some old →
  let out := curl_easy_perform self w in
  (net w !! url = None →
     fs out.2 !! path = Some old ∧ str (res out.1.2) = str (res self))
  ∧ (∀ resp, net w !! url = Some resp →
       (N.of_nat (length (concat (body_chunks resp))) < 2 ^ 64)%N →
       (N.of_nat (length (concat (body_chunks resp))) ≤ free_space w)%N →
       fs out.2 !! path = Some (old ++ concat (body_chunks resp))
       ∧ str (res out.1.2)
         = match fn with
           | WriteToFile => str (res self)
           | _ => str (res self) ++ concat (body_chunks resp)
           end)
  ∧ (fn = WriteToFile → str (res out.1.2) = str (res self)).
Proof.
  intros Hurl Hfn Hdata Hne Hfile Hopen Hfs.
  unfold curl_easy_perform. rewrite Hurl, Hfn, Hdata. simpl.
  set (w0 := log (EvPerform (easy_id (handle self)) (Some url)) w).
  destruct (net w !! url) as [resp|] eqn:Hnet.
  - pose proof (deliver_all fn f path (body_chunks resp) Hne (res self) w0 old
                  Hfile Hopen Hfs) as Hall.
    pose proof (deliver_file_str (body_chunks resp) (res self) w0) as Hstr.
    destruct (deliver fn (body_chunks resp) (res self) w0) as [[ok r] w1] eqn:Hd.
    split_and!.
    + done.
    + intros resp' [= <-] Hlt Hle.
      destruct (Hall Hlt Hle) as (Hok & Hfs1 & Hs1). simpl in Hok, Hfs1, Hs1.
      subst ok. simpl. done.
    + intros ->. rewrite Hd in Hstr. simpl in Hstr. by destruct ok.
  - split_and!; done.
Qed.

(** Closing the stream and printing do not touch the file system, the
    string or the handle. *)
Lemma perform_keeps (self : DownloadHelper) (w : World) :
  fs (perform self w).2 = fs (curl_easy_perform self w).2
  ∧ str (res (perform self w).1.2) = str (res (curl_easy_perform self w).1.2)
  ∧ handle (perform self w).1.2 = handle self.
Proof.
  unfold perform.
  destruct (curl_easy_perform_frame self w) as (_ & _ & _ & Hh & _).
  destruct (curl_easy_perform self w) as [[success self1] w1].
  simpl in Hh |- *.
  destruct (file (res self1)); simpl;
    destruct (negb _), (is_used _); simpl; done.
Qed.

(** ** Configuring a download: [set_options] *)

(** When the file can be opened, [set_options] returns with a fresh,
    empty, open file behind the sink. *)
Lemma set_options_opens (mode : DownloadMode) (url path : string)
    (self : DownloadHelper) (w : World) :
  mode ≠ STR →
  fopen_errno w !! path = None →
  let out := set_options mode url path self w in
  out.1.1 = Return tt
  ∧ opt_url (handle out.1.2) = Some url
  ∧ opt_writefunction (handle out.1.2) = Some (callback_of mode)
  ∧ opt_writedata (handle out.1.2) = true
  ∧ res out.1.2 = {| file := Some (next_file w); str := [] |}
  ∧ open_files out.2 !! next_file w = Some path
  ∧ fs out.2 !! path = Some []
  ∧ free_space out.2 = free_space w
  ∧ net out.2 = net w
  ∧ perform_count out.2 = perform_count w.
Proof.
  intros Hmode Hok. unfold set_options.
  set (w1 := match file (res self) with Some f => fclose f w | None => w end).
  assert (Hw1 : fopen_errno w1 = fopen_errno w ∧ next_file w1 = next_file w
                ∧ free_space w1 = free_space w ∧ net w1 = net w
                ∧ perform_count w1 = perform_count w).
  { unfold w1. destruct (file (res self)); simpl; split_and!; try done.
    apply perform_count_fclose. }
  destruct Hw1 as (He & Hn & Hfree & Hnet & Hc).
  pose proof (perform_count_fopen_wb path w1) as Hc'.
  unfold fopen_wb in *. rewrite He, Hok in *. simpl in Hc'.
  destruct mode; [| congruence |]; simpl; rewrite Hn;
    (split_and!; try done;
     [apply lookup_insert_eq | apply lookup_insert_eq | congruence]).
Qed.

(** Configure for a file mode, then perform: one transport call, and,
    when the device takes the whole body, the file holds exactly the
    delivered bytes. *)
Lemma download_to_file (mode : DownloadMode) (url path : string)
    (self : DownloadHelper) (w : World) :
  mode ≠ STR →
  fopen_errno w !! path = None →
  let cfg := set_options mode url path self w in
  let out := perform cfg.1.2 cfg.2 in
  cfg.1.1 = Return tt
  ∧ opt_writefunction (handle out.1.2) = Some (callback_of mode)
  ∧ perform_count out.2 = S (perform_count w)
  ∧ (mode = FILE → get_str out.1.2 = [])
  ∧ (net w !! url = None → fs out.2 !! path = Some [])
  ∧ (∀ resp, net w !! url = Some resp →
       (N.of_nat (length (concat (body_chunks resp))) < 2 ^ 64)%N →
       (N.of_nat (length (concat (body_chunks resp))) ≤ free_space w)%N →
       fs out.2 !! path = Some (concat (body_chunks resp))
       ∧ (mode = FILE_AND_STR →
          get_str out.1.2 = concat (body_chunks resp))).
Proof.
  intros Hmode Hok.
  destruct (set_options_opens mode url path self w Hmode Hok)
    as (Hret & Hurl & Hfn & Hdata & Hres & Hopen & Hfs & Hfree & Hnet & Hc).
  destruct (set_options mode url path self w) as [[o self1] w1].
  simpl in Hret, Hurl, Hfn, Hdata, Hres, Hopen, Hfs, Hfree, Hnet, Hc |- *.
  assert (Hcb : callback_of mode ≠ WriteToStr) by (by destruct mode).
  assert (Hfile : file (res self1) = Some (next_file w)) by (by rewrite Hres).
  destruct (curl_easy_perform_body self1 w1 url (callback_of mode)
              (next_file w) path [] Hurl Hfn Hdata Hcb Hfile Hopen Hfs)
    as (Hnone & Hsome & Hstr).
  destruct (perform_keeps self1 w1) as (Kfs & Kstr & Kh).
  unfold get_str. rewrite Kfs, Kstr, Kh, perform_perform_count, Hc.
  rewrite Hnet in Hnone, Hsome. rewrite Hfree in Hsome. rewrite Hres in *.
  split_and!; try done.
  - intros ->. by apply Hstr.
  - intros Hn. by apply Hnone.
  - intros resp Hr Hlt Hle. destruct (Hsome resp Hr Hlt Hle) as [H1 H2].
    split; [done|]. intros ->. done.
Qed.

(** ** Claims about the sink *)

(** C7.  [write_data_to_file_and_str] does the file write and the memory
    write on every chunk: its result and the world it leaves are those of
    [write_data_to_file], and the chunk is appended to the string whatever
    the file write reported.  Hence a FILE_AND_STR download whose file
    takes every chunk ends with the file and the string both equal to the
    delivered body. *)
Theorem file_and_str_sink :
  (∀ (buffer : bytes) (size nmemb : N) (r : CurlResult) (w : World),
     let file_out := write_data_to_file buffer size nmemb r w in
     let out := write_data_to_file_and_str buffer size nmemb r w in
     out.1.1 = file_out.1.1
     ∧ out.2 = file_out.2
     ∧ file out.1.2 = file r
     ∧ str out.1.2 = str r ++ take (N.to_nat (size_mul size nmemb)) buffer)
  ∧ (∀ (url path : string) (self : DownloadHelper) (w : World)
       (resp : Response),
       fopen_errno w !! path = None →
       net w !! url = Some resp →
       (N.of_nat (length (concat (body_chunks resp))) < 2 ^ 64)%N →
       (N.of_nat (length (concat (body_chunks resp))) ≤ free_space w)%N →
       let cfg := set_options FILE_AND_STR url path self w in
       let out := perform cfg.1.2 cfg.2 in
       fs out.2 !! path = Some (concat (body_chunks resp))
       ∧ get_str out.1.2 = concat (body_chunks resp)).
Proof.
  split.
  - intros buffer size nmemb r w.
    unfold write_data_to_file_and_str, write_data_to_file, write_data_to_str.
    destruct (fwrite buffer size nmemb (file r) w) as [n w']. simpl. done.
  - intros url path self w resp Hok Hnet Hlt Hle.
    destruct (download_to_file FILE_AND_STR url path self w) as
      (_ & _ & _ & _ & _ & Hbody); [done | done |].
    destruct (Hbody resp Hnet Hlt Hle) as [Hfs Hstr].
    split; [exact Hfs | by apply Hstr].
Qed.

Lemma file_and_str_sink_witness :
  let self := (new_DownloadHelper online_world).1 in
  let cfg :=
    set_options FILE_AND_STR "http://mirror/a.json" "a.json" self online_world in
  let out := perform cfg.1.2 cfg.2 in
  fs out.2 !! "a.json" = Some hello ∧ get_str out.1.2 = hello.
Proof.
  apply (proj2 file_and_str_sink "http://mirror/a.json" "a.json"
           (new_DownloadHelper online_world).1 online_world
           {| body_chunks := [[x68; x65]%byte; [x6c; x6c; x6f]%byte];
              result := CURLE_OK; errtext := "" |}).
  - reflexivity.
  - reflexivity.
  - reflexivity.
  - vm_compute. discriminate.
Defined.

(** ** Claims about [set_options] and [sha1_checksum] *)

(** C8.  In the two modes that write to a file, when [fopen] refuses the
    path with error code [e], [set_options] throws
    [FileOpenError{path, e}] on the spot: no write callback is bound,
    the sink has no stream, and no transport call has been made. *)
Theorem set_options_open_failure (mode : DownloadMode) (url path : string)
    (self : DownloadHelper) (w : World) (e : Z) :
  mode = FILE ∨ mode = FILE_AND_STR →
  fopen_errno w !! path = Some e →
  let out := set_options mode url path self w in
  out.1.1 = Throw {| fo_path := path; fo_errno := e |}
  ∧ file (res out.1.2) = None
  ∧ opt_writefunction (handle out.1.2) = None
  ∧ perform_count out.2 = perform_count w.
Proof.
  intros Hmode Hfail. unfold set_options.
  set (w1 := match file (res self) with Some f => fclose f w | None => w end).
  assert (Hw1 : fopen_errno w1 = fopen_errno w
                ∧ perform_count w1 = perform_count w).
  { unfold w1. destruct (file (res self)); simpl; split; try done.
    apply perform_count_fclose. }
  destruct Hw1 as [He Hc].
  unfold fopen_wb. rewrite He, Hfail.
  destruct Hmode as [-> | ->]; simpl; split_and!; try done;
    unfold ERR; rewrite perform_count_log; simpl;
    unfold perform_count in *; simpl; lia.
Qed.

Lemma set_options_open_failure_witness :
  let self := (new_DownloadHelper readonly_world).1 in
  let out :=
    set_options FILE "http://mirror/a.json" "missing/a.json" self
                readonly_world in
  out.1.1 = Throw {| fo_path := "missing/a.json"; fo_errno := ENOENT |}
  ∧ file (res out.1.2) = None
  ∧ opt_writefunction (handle out.1.2) = None
  ∧ perform_count out.2 = perform_count readonly_world.
Proof.
  apply (set_options_open_failure FILE "http://mirror/a.json"
           "missing/a.json" (new_DownloadHelper readonly_world).1
           readonly_world ENOENT).
  - left. reflexivity.
  - reflexivity.
Defined.

(** C10.  [sha1_checksum] answers [true] for every helper, in whatever
    state, and every expected digest: it looks at neither. *)
Theorem sha1_checksum_always_true (self : DownloadHelper)
    (checksum : string) :
  sha1_checksum self checksum = true.
Proof. reflexivity. Qed.

(** ** Claims about [download_cached_file] *)

(** C1.  When [path] is on disk with contents [content],
    [download_cached_file] returns [content] if the string is wanted and
    the empty string otherwise; the helper and the world come back
    untouched, so no transport call is made. *)
Theorem download_cached_file_hit (url path : string) (download_str : bool)
    (helper : DownloadHelper) (w : World) (content : bytes) :
  fs w !! path = Some content →
  download_cached_file url path download_str helper w
  = (Return (if download_str then content else []), helper, w)
  ∧ perform_count (download_cached_file url path download_str helper w).2
    = perform_count w.
Proof.
  intros Hfs. unfold download_cached_file, file_exists, read_file.
  rewrite bool_decide_eq_true_2 by (rewrite Hfs; eauto).
  rewrite Hfs. destruct download_str; done.
Qed.

Lemma download_cached_file_hit_witness :
  let helper := (new_DownloadHelper cached_world).1 in
  download_cached_file "http://mirror/a.json" "cache/a.json" true helper
                       cached_world
  = (Return hello, helper, cached_world)
  ∧ perform_count
      (download_cached_file "http://mirror/a.json" "cache/a.json" true helper
                            cached_world).2
    = perform_count cached_world.
Proof.
  apply (download_cached_file_hit "http://mirror/a.json" "cache/a.json" true
           (new_DownloadHelper cached_world).1 cached_world hello).
  reflexivity.
Defined.

(** C6, as the code has it.  When [path] is not on disk and [fopen]
    accepts it, [download_cached_file] binds the file callback (string
    not wanted) or the file-and-string callback (string wanted), makes
    exactly one transport call and returns the helper's string, which is
    empty when the string is not wanted.  If the device takes the whole
    body, [path] then holds exactly the delivered bytes, and they are the
    returned string when the string is wanted. *)
Theorem download_cached_file_miss (url path : string) (download_str : bool)
    (helper : DownloadHelper) (w : World) :
  file_exists path w = false →
  fopen_errno w !! path = None →
  ∃ (helper' : DownloadHelper) (w' : World),
    download_cached_file url path download_str helper w
    = (Return (get_str helper'), helper', w')
    ∧ opt_writefunction (handle helper')
      = Some (if download_str then WriteToFileAndStr else WriteToFile)
    ∧ perform_count w' = S (perform_count w)
    ∧ (download_str = false → get_str helper' = [])
    ∧ (net w !! url = None → fs w' !! path = Some [])
    ∧ (∀ resp, net w !! url = Some resp →
         (N.of_nat (length (concat (body_chunks resp))) < 2 ^ 64)%N →
         (N.of_nat (length (concat (body_chunks resp))) ≤ free_space w)%N →
         fs w' !! path = Some (concat (body_chunks resp))
         ∧ (download_str = true →
            get_str helper' = concat (body_chunks resp))).
Proof.
  intros Hmiss Hok. unfold download_cached_file. rewrite Hmiss.
  set (mode := if download_str then FILE_AND_STR else FILE).
  assert (Hmode : mode ≠ STR) by (unfold mode; by destruct download_str).
  destruct (download_to_file mode url path helper w Hmode Hok)
    as (Hret & Hfn & Hc & Hempty & Hnone & Hbody).
  destruct (set_options mode url path helper w) as [[o helper1] w1].
  simpl in Hret, Hfn, Hc, Hempty, Hnone, Hbody. subst o.
  destruct (perform helper1 w1) as [[b helper2] w2].
  simpl in Hfn, Hc, Hempty, Hnone, Hbody.
  exists helper2, w2. split_and!; try done.
  - rewrite Hfn. unfold mode. by destruct download_str.
  - intros ->. by apply Hempty.
  - intros resp Hr Hlt Hle. destruct (Hbody resp Hr Hlt Hle) as [H1 H2].
    split; [done|]. intros ->. by apply H2.
Qed.

Lemma download_cached_file_miss_witness :
  ∃ (helper' : DownloadHelper) (w' : World),
    download_cached_file "http://mirror/a.json" "a.json" true
                         (new_DownloadHelper online_world).1 online_world
    = (Return (get_str helper'), helper', w')
    ∧ perform_count w' = 1
    ∧ fs w' !! "a.json" = Some hello
    ∧ get_str helper' = hello.
Proof.
  destruct (download_cached_file_miss "http://mirror/a.json" "a.json" true
              (new_DownloadHelper online_world).1 online_world)
    as (helper' & w' & Hrun & _ & Hc & _ & _ & Hbody).
  - reflexivity.
  - reflexivity.
  - exists helper', w'.
    destruct (Hbody {| body_chunks := [[x68; x65]%byte; [x6c; x6c; x6f]%byte];
                       result := CURLE_OK; errtext := "" |})
      as [Hfs Hstr].
    + reflexivity.
    + reflexivity.
    + vm_compute. discriminate.
    + split_and!; [exact Hrun | exact Hc | exact Hfs | by apply Hstr].
Defined.

(** C6 as stated fails in two ways.  With [missing/a.json], which [fopen]
    refuses, the call throws before any transfer: no transport call is
    made and the path stays absent.  With a device that has room for
    three of the five bytes, the one transfer is made but the path ends
    with only the first three bytes delivered. *)
Lemma download_cached_file_miss_counterexample :
  (let helper := (new_DownloadHelper readonly_world).1 in
   let out := download_cached_file "http://mirror/a.json" "missing/a.json"
                                   false helper readonly_world in
   file_exists "missing/a.json" readonly_world = false
   ∧ out.1.1 = Throw {| fo_path := "missing/a.json"; fo_errno := ENOENT |}
   ∧ perform_count out.2 = 0
   ∧ fs out.2 !! "missing/a.json" = None)
  ∧ (let helper := (new_DownloadHelper full_world).1 in
     let out := download_cached_file "http://mirror/a.json" "a.json"
                                     true helper full_world in
     file_exists "a.json" full_world = false
     ∧ out.1.1 = Return hello
     ∧ perform_count out.2 = 1
     ∧ fs out.2 !! "a.json" = Some [x68; x65; x6c]%byte).
Proof. vm_compute. split_and!; reflexivity. Qed.

(** ** Where the single download goes wrong *)

(** [set_options] closes the stream of the previous configuration but
    keeps the pointer unless the new mode opens a file. *)
Lemma set_options_str_keeps_pointer (url path : string)
    (self : DownloadHelper) (w : World) (f : nat) :
  file (res self) = Some f →
  let out := set_options STR url path self w in
  file (res out.1.2) = Some f ∧ open_files out.2 !! f = None.
Proof.
  intros Hf. unfold set_options. rewrite Hf. simpl.
  split; [done | apply lookup_delete_eq].
Qed.

(** C2 at its failing input.  Configure for FILE, configure again for
    STR, then perform: stream 0, opened by the first call, is closed by
    the second call and closed once more by [perform].  The same happens
    when the helper is destroyed instead of performed. *)
Theorem reconfigure_closes_twice :
  trace reconfigure_then_perform
  = [EvOpen 0 "a.json"; EvClose 0;
     EvPerform 0 (Some "http://mirror/a.json"); EvClose 0; EvErr ""]
  ∧ close_count 0 reconfigure_then_perform = 2
  ∧ trace reconfigure_then_destroy
    = [EvOpen 0 "a.json"; EvClose 0; EvCleanup 0; EvClose 0]
  ∧ close_count 0 reconfigure_then_destroy = 2.
Proof. vm_compute. split_and!; reflexivity. Qed.



(** C4 at its failing input.  A configured download from a host that
    does not resolve: [perform] returns [false] and prints the error
    buffer, but the buffer is still empty. *)
Theorem failed_download_has_no_message :
  failed_download.1.1 = false
  ∧ get_err failed_download.1.2 = ""
  ∧ trace failed_download.2
    = [EvPerform 0 (Some "http://nowhere.invalid/"); EvErr ""].
Proof. vm_compute. split_and!; reflexivity. Qed.

(** The same failure on a handle that still has its error buffer (a
    helper that was never configured) does fill the buffer. *)
Lemma unconfigured_failure_has_message :
  let '(h, w) := new_DownloadHelper quiet_world in
  let out := perform h w in
  out.1.1 = false ∧ get_err out.1.2 = "No URL set".
Proof. vm_compute. split; reflexivity. Qed.

(** ** The progress meter *)

(** With [dlnow / dltotal] equal to one half the bar has five dots
    followed by five blanks. *)
Lemma progress_callback_half (data : ProgressData)
    (dltotal dlnow ultotal ulnow : float) (w : World) :
  PrimFloat.eqb dltotal 0 = false →
  PrimFloat.eqb dlnow 0 = false →
  (dlnow / dltotal)%float = 0.5%float →
  progress_callback data dltotal dlnow ultotal ulnow w
  = Some (CURL_PROGRESSFUNC_CONTINUE,
          OUT_REPL (title data +:+ "[.....     ]") w).
Proof.
  intros Ht Hn Hhalf. unfold progress_callback.
  rewrite Ht, Hn, Hhalf. reflexivity.
Qed.

(** [add_progress_meter] changes nothing, so the flag tested by
    [perform] stays as the constructor left it. *)
Lemma add_progress_meter_noop (style : nat) (title : string)
    (self : DownloadHelper) :
  add_progress_meter style title self = self.
Proof. reflexivity. Qed.

(** [perform] prints the line feed exactly when [is_used] is set. *)
Lemma perform_newline (self : DownloadHelper) (w : World) :
  List.filter is_out (trace (perform self w).2)
  = List.filter is_out (trace w)
    ++ (if is_used (progress_data self)
        then [EvOut (String (Ascii.ascii_of_nat 10) "")] else []).
Proof.
  unfold perform.
  pose proof (curl_easy_perform_frame self w) as (_ & _ & _ & _ & Hp & _).
  assert (Ht : List.filter is_out (trace (curl_easy_perform self w).2)
               = List.filter is_out (trace w)).
  { unfold curl_easy_perform.
    set (w0 := log _ w).
    assert (H0 : List.filter is_out (trace w0) = List.filter is_out (trace w)).
    { unfold w0, log; simpl. rewrite List.filter_app; simpl.
      by rewrite app_nil_r. }
    destruct (opt_url (handle self)) as [url|]; simpl; [|done].
    destruct (net w !! url) as [resp|]; simpl; [|done].
    destruct (opt_writefunction (handle self)) as [fn|],
             (opt_writedata (handle self)); simpl; try done.
    - destruct (deliver_frame fn (body_chunks resp) (res self) w0)
        as (Hd & _ & _).
      destruct (deliver fn (body_chunks resp) (res self) w0) as [[ok r] w1].
      simpl in Hd. destruct ok; simpl; by rewrite Hd.
    - rewrite List.filter_app; simpl. by rewrite app_nil_r. }
  destruct (curl_easy_perform self w) as [[success self1] w1].
  simpl in Hp, Ht. rewrite <- Hp, <- Ht.
  destruct (file (res self1)); simpl;
    destruct (negb _), (is_used (progress_data self1)); simpl;
    rewrite ?List.filter_app; simpl; rewrite ?app_nil_r; done.
Qed.

(** C9 at its failing input.  A helper on which [add_progress_meter] was
    called, configured and performed with success: [is_used] is still
    unset and nothing at all is printed, so no line feed follows the
    transfer.  More generally [perform] cannot tell a helper with a meter
    attached from one without. *)
Theorem metered_download_prints_nothing :
  metered_download.1.1 = true
  ∧ is_used (progress_data metered_download.1.2) = false
  ∧ List.filter is_out (trace metered_download.2) = []
  ∧ trace metered_download.2 = [EvPerform 0 (Some "http://mirror/a.json")]
  ∧ ∀ (style : nat) (title : string) (self : DownloadHelper) (w : World),
      perform (add_progress_meter style title self) w = perform self w.
Proof. split_and!; try (vm_compute; reflexivity). Qed.

(** ** The multi download, over any multi handle *)

Section MultiProperties.
Context {M : Type} `{CurlMulti M}.

(** The only value [perform_blocking] ever returns is [true]. *)
Lemma perform_blocking_returns_true (fuel : nat)
    (self self' : MultiDownloadHelper M) (b : bool) :
  perform_blocking fuel self = Returned (b, self') → b = true.
Proof.
  unfold perform_blocking.
  destruct (transfer_loop fuel self) as [self1| |]; [|done|done].
  case_bool_decide; [|done]. by intros [= <- _].
Qed.

(** With assertions enabled, a run that returns has passed
    [assert(helpers.empty())]: the map is empty and [msgs_in_queue] is
    back to 1.  This says nothing of the runs that do not return. *)
Lemma perform_blocking_leaves_empty (fuel : nat)
    (self self' : MultiDownloadHelper M) (b : bool) :
  perform_blocking fuel self = Returned (b, self') →
  helpers self' = ∅
  ∧ get_helper_count self' = 0
  ∧ msgs_in_queue self' = 1%Z.
Proof.
  unfold perform_blocking, get_helper_count.
  destruct (transfer_loop fuel self) as [self1| |]; [|done|done].
  case_bool_decide as Hempty; [|done].
  intros [= _ <-]. simpl. rewrite Hempty.
  split_and!; [done | apply map_size_empty | done].
Qed.

End MultiProperties.

(** C3 at its failing input.  A multi handle that answers every perform
    and poll with [CURLM_INTERNAL_ERROR]: with no helper registered
    [perform_blocking] leaves the loop and returns [true]; with two
    helpers registered it leaves the loop with the map still full and
    trips its own [assert(helpers.empty())]. *)
Theorem multi_error_is_not_reported :
  perform_blocking 10 (new_MultiDownloadHelper (λ _, 0) CURLM_INTERNAL_ERROR)
  = Returned (true, new_MultiDownloadHelper (λ _, 0) CURLM_INTERNAL_ERROR)
  ∧ perform_blocking 10 (two_helpers CURLM_INTERNAL_ERROR) = AssertionFailed.
Proof. split; vm_compute; reflexivity. Qed.

(** Whatever the fuel, the loops built with NDEBUG agree with the loops
    above on every run that trips no assertion. *)
Lemma drain_ndebug_agrees {M : Type} `{CurlMulti M} (fuel : nat) :
  ∀ self s : MultiDownloadHelper M,
    drain fuel self = Returned s → drain_ndebug fuel self = Returned s.
Proof.
  induction fuel as [|fuel IH]; intros self s; simpl; [done|].
  destruct (curl_multi_info_read (mhandle self)) as [[[[] e]|] mh];
    try done; try apply IH.
  case_bool_decide; [apply IH | done].
Qed.

Lemma transfer_loop_ndebug_agrees {M : Type} `{CurlMulti M} (fuel : nat) :
  ∀ self s : MultiDownloadHelper M,
    transfer_loop fuel self = Returned s →
    transfer_loop_ndebug fuel self = Returned s.
Proof.
  induction fuel as [|fuel IH]; intros self s; simpl; [done|].
  destruct (msgs_in_queue self =? 0)%Z; [done|].
  destruct (curl_multi_perform (mhandle self) (msgs_in_queue self))
    as [[code running] mh].
  destruct (if (running =? 0)%Z then (code, mh) else curl_multi_poll mh)
    as [code' mh'].
  destruct (negb (code' =? 0)); [done|].
  destruct (drain fuel _) as [self2| |] eqn:Hd; [|done|done].
  rewrite (drain_ndebug_agrees fuel _ _ Hd). apply IH.
Qed.

(** C5 at its failing input.  Two helpers registered with a multi handle
    that answers every perform and poll with [CURLM_INTERNAL_ERROR]: the
    loop is left through its [break] with both helpers still in the
    map.  The run therefore never reaches the state the claim describes:
    with assertions enabled [assert(helpers.empty())] fails, and built
    with NDEBUG the function returns [true] with [get_helper_count] at
    2. *)
Theorem multi_error_leaves_helpers_registered :
  get_helper_count (two_helpers CURLM_INTERNAL_ERROR) = 2
  ∧ (∃ s, transfer_loop 10 (two_helpers CURLM_INTERNAL_ERROR) = Returned s
          ∧ get_helper_count s = 2)
  ∧ perform_blocking 10 (two_helpers CURLM_INTERNAL_ERROR) = AssertionFailed
  ∧ ∃ s, perform_blocking_ndebug 10 (two_helpers CURLM_INTERNAL_ERROR)
         = Returned (true, s)
         ∧ get_helper_count s = 2
         ∧ msgs_in_queue s = 1%Z.
Proof.
  split_and!.
  - vm_compute. reflexivity.
  - eexists. split; vm_compute; reflexivity.
  - vm_compute. reflexivity.
  - eexists. split_and!; vm_compute; reflexivity.
Qed.

(** ** The multi download on the lawful multi handle

    With a multi handle that follows the libcurl contract and reports no
    error, [perform_blocking] does return, given enough fuel, and it
    returns [true] with the map emptied. *)

(** A filter that every element passes changes nothing. *)
Lemma filter_all {A} (P : A → Prop) `{∀ x, Decision (P x)} (l : list A) :
  (∀ x, x ∈ l → P x) → filter P l = l.
Proof.
  induction l as [|x l IH]; intros Hall; [done|].
  rewrite filter_cons_True by (apply Hall; left).
  f_equal. apply IH. intros y Hy. apply Hall. by right.
Qed.

(** Draining an inbox that holds one [CURLMSG_DONE] per handle of [l]:
    the loop returns, the inbox is empty, and exactly the handles of [l]
    have left both the multi handle and the map. *)
Lemma drain_done (l : list nat) :
  ∀ (fuel : nat) (self : MultiDownloadHelper Sim.SimMulti),
    Sim.inbox (mhandle self) = Sim.done_msg <$> l →
    NoDup l →
    (∀ h, h ∈ l → is_Some (helpers self !! h)) →
    length l < fuel →
    ∃ self',
      drain fuel self = Returned self'
      ∧ msgs_in_queue self' = msgs_in_queue self
      ∧ Sim.fault (mhandle self') = Sim.fault (mhandle self)
      ∧ Sim.inbox (mhandle self') = []
      ∧ Sim.transfers (mhandle self')
        = filter (λ t, t.1 ∉ l) (Sim.transfers (mhandle self))
      ∧ ∀ h, is_Some (helpers self' !! h)
             ↔ is_Some (helpers self !! h) ∧ h ∉ l.
Proof.
  induction l as [|e l IH]; intros fuel self Hin Hnd Hreg Hfuel.
  - destruct fuel as [|fuel]; [simpl in Hfuel; lia|].
    simpl. unfold Sim.info_read. rewrite Hin. simpl.
    eexists. split; [reflexivity|]. simpl.
    split_and!; try done.
    + symmetry. apply filter_all. intros t _. apply not_elem_of_nil.
    + intros h. split; [intros Hh; split; [done | apply not_elem_of_nil] | by intros [? _]].
  - destruct fuel as [|fuel]; [simpl in Hfuel; lia|].
    simpl. unfold Sim.info_read. rewrite Hin. simpl.
    rewrite bool_decide_eq_true_2 by (apply Hreg; left).
    apply NoDup_cons in Hnd as [Hne Hnd].
    edestruct (IH fuel) as (self' & Hrun & Hq & Hf & Hi & Ht & Hh);
      [ | exact Hnd | | | ].
    4:{ exists self'. split; [exact Hrun|]. simpl in *.
        split_and!; try done.
        - rewrite Ht. rewrite list_filter_filter. apply list_filter_iff.
          intros t. rewrite not_elem_of_cons. tauto.
        - intros h. rewrite Hh, not_elem_of_cons.
          destruct (decide (h = e)) as [->|Hneq].
          + rewrite lookup_delete_eq. split; [by intros [[? [=]] _] | tauto].
          + rewrite lookup_delete_ne by done. tauto. }
    + simpl. apply filter_all. intros c Hc.
      apply list_elem_of_fmap in Hc as (h & -> & Hh). simpl. congruence.
    + simpl. intros h Hh. rewrite lookup_delete_ne by congruence.
      apply Hreg. by right.
    + simpl in *. lia.
Qed.

Lemma step_fst (ts : list (nat * option nat)) : (Sim.step <$> ts).*1 = ts.*1.
Proof. rewrite <- list_fmap_compose. by apply list_fmap_ext. Qed.

(** One turn of the outer loop from a settled state leads to a settled
    state in which every transfer is one round closer to its end. *)
Lemma transfer_round (self : MultiDownloadHelper Sim.SimMulti) (F : nat) :
  settled self →
  msgs_in_queue self ≠ 0%Z →
  length (Sim.transfers (mhandle self)) < F →
  ∃ self2,
    transfer_loop (S F) self = transfer_loop F self2
    ∧ settled self2
    ∧ (msgs_in_queue self2 = 0%Z → Sim.transfers (mhandle self2) = [])
    ∧ length (Sim.transfers (mhandle self2))
      ≤ length (Sim.transfers (mhandle self))
    ∧ (∀ n, within (S n) self → within n self2)
    ∧ (Sim.transfers (mhandle self) = [] → msgs_in_queue self2 = 0%Z).
Proof.
  intros (Hfault & Hinbox & Hnd & Hrun & Hdom) Hq Hfuel.
  set (ts := Sim.transfers (mhandle self)) in *.
  set (l := (filter (λ t, t.2 = Some 0) ts).*1).
  set (self1 :=
         {| mhandle := {| Sim.transfers := Sim.step <$> ts;
                          Sim.inbox := Sim.done_msg <$> l;
                          Sim.latency := Sim.latency (mhandle self);
                          Sim.fault := 0 |};
            helpers := helpers self;
            msgs_in_queue :=
              Z.of_nat (length (filter (λ t, is_Some t.2) (Sim.step <$> ts)))
         |}).
  assert (Hstep : transfer_loop (S F) self
                  = match drain F self1 with
                    | Returned self2 => transfer_loop F self2
                    | AssertionFailed => AssertionFailed
                    | OutOfFuel => OutOfFuel
                    end).
  { simpl. rewrite (proj2 (Z.eqb_neq _ _) Hq).
    unfold Sim.multi_perform, Sim.multi_poll. rewrite Hfault, Hinbox. simpl.
    fold ts. fold l.
    destruct (Z.of_nat _ =? 0)%Z; simpl; rewrite ?Hfault; reflexivity. }
  assert (Hsub : l `sublist_of` ts.*1).
  { unfold l. apply fmap_sublist, sublist_filter. }
  destruct (drain_done l F self1) as (self2 & Hdrain & Hq2 & Hf2 & Hi2 & Ht2 & Hh2).
  { reflexivity. }
  { exact (sublist_NoDup _ _ Hnd Hsub). }
  { intros h Hh. simpl. apply Hdom. by eapply sublist_subseteq. }
  { apply sublist_length in Hsub. rewrite length_fmap in Hsub. lia. }
  simpl in Hq2, Hf2, Hi2, Ht2, Hh2.
  assert (Hkeep : ∀ t', t' ∈ Sim.transfers (mhandle self2) →
            ∃ t k, t ∈ ts ∧ t.2 = Some (S k) ∧ t' = (t.1, Some k)).
  { intros t'. rewrite Ht2, list_elem_of_filter, list_elem_of_fmap.
    intros (Hnot & t & -> & Ht).
    pose proof (proj1 (Forall_forall _ _) Hrun t Ht) as [k Hk].
    destruct k as [|k].
    - exfalso. apply Hnot. simpl. unfold l.
      apply list_elem_of_fmap. exists t. split; [done|].
      by apply list_elem_of_filter.
    - exists t, k. split_and!; try done.
      unfold Sim.step. by rewrite Hk. }
  exists self2. rewrite Hstep, Hdrain. split; [reflexivity|].
  assert (Hrun2 : Forall (λ t, is_Some t.2) (Sim.transfers (mhandle self2))).
  { apply Forall_forall. intros t' Ht'.
    destruct (Hkeep t' Ht') as (t & k & _ & _ & ->). simpl. eauto. }
  split_and!.
  - split_and!; try done.
    + rewrite Ht2. refine (sublist_NoDup _ (ts.*1) Hnd _).
      rewrite <- (step_fst ts). apply fmap_sublist, sublist_filter.
    + intros h. rewrite Hh2, Hdom, Ht2.
      rewrite !list_elem_of_fmap. split.
      * intros [(t & -> & Ht) Hnot]. exists (Sim.step t). split; [done|].
        apply list_elem_of_filter. split; [done|].
        by apply list_elem_of_fmap_2.
      * intros (t' & -> & Ht').
        apply list_elem_of_filter in Ht' as [Hnot Ht'].
        apply list_elem_of_fmap in Ht' as (t & -> & Ht).
        split; [by exists t | done].
  - rewrite Hq2. intros Hz.
    assert (Hnil : filter (λ t, is_Some t.2) (Sim.step <$> ts) = []).
    { apply length_zero_iff_nil. lia. }
    apply elem_of_nil_inv. intros t' Hin.
    apply (filter_nil_not_elem_of _ _ t' Hnil).
    + by apply (proj1 (Forall_forall _ _) Hrun2).
    + rewrite Ht2 in Hin. by apply list_elem_of_filter in Hin as [_ ?].
  - rewrite Ht2. etrans; [apply length_filter|]. by rewrite length_fmap.
  - intros n Hn. apply Forall_forall. intros t' Ht' k' Hk'.
    destruct (Hkeep t' Ht') as (t & k & Ht & Hk & ->).
    simpl in Hk'. injection Hk' as <-.
    pose proof (proj1 (Forall_forall _ _) Hn t Ht (S k) Hk). lia.
  - intros Hnil. rewrite Hq2. fold ts in Hnil. by rewrite Hnil.
Qed.

(** With nothing registered and the counter at 0 the loop is over. *)
Lemma transfer_loop_exit (self : MultiDownloadHelper Sim.SimMulti) (fuel : nat) :
  settled self →
  msgs_in_queue self = 0%Z →
  Sim.transfers (mhandle self) = [] →
  transfer_loop fuel self = Returned self ∧ helpers self = ∅.
Proof.
  intros (_ & _ & _ & _ & Hdom) Hq Hts. split.
  - destruct fuel; simpl; by rewrite Hq.
  - apply map_empty. intros h. apply eq_None_not_Some.
    rewrite Hdom, Hts. apply not_elem_of_nil.
Qed.

(** The loop ends after at most [n] further rounds, with the map
    empty. *)
Lemma transfer_loop_finishes (n : nat) :
  ∀ (fuel : nat) (self : MultiDownloadHelper Sim.SimMulti),
    settled self →
    (msgs_in_queue self = 0%Z → Sim.transfers (mhandle self) = []) →
    within n self →
    n + length (Sim.transfers (mhandle self)) + 2 ≤ fuel →
    ∃ self', transfer_loop fuel self = Returned self' ∧ helpers self' = ∅.
Proof.
  induction n as [|n IH]; intros fuel self Hs Hzero Hn Hfuel.
  - assert (Hnil : Sim.transfers (mhandle self) = []).
    { destruct Hs as (_ & _ & _ & Hrun & _). unfold within in Hn.
      destruct (Sim.transfers (mhandle self)) as [|t rest]; [done|].
      apply Forall_cons in Hrun as [[k Hk] _].
      apply Forall_cons in Hn as [Hlt _]. specialize (Hlt k Hk). lia. }
    destruct (decide (msgs_in_queue self = 0%Z)) as [Hq|Hq].
    + exists self. by apply transfer_loop_exit.
    + destruct fuel as [|F]; [lia|].
      destruct (transfer_round self F Hs Hq) as
        (self2 & Hstep & Hs2 & Hz2 & _ & _ & Hq2); [rewrite Hnil; simpl; lia|].
      exists self2. rewrite Hstep.
      apply transfer_loop_exit; auto.
  - destruct (decide (msgs_in_queue self = 0%Z)) as [Hq|Hq].
    + exists self. apply transfer_loop_exit; auto.
    + destruct fuel as [|F]; [lia|].
      destruct (transfer_round self F Hs Hq) as
        (self2 & Hstep & Hs2 & Hz2 & Hlen & Hwithin & _); [lia|].
      rewrite Hstep. apply IH; auto. lia.
Qed.

(** From a settled state whose loop is due to start,
    [perform_blocking] returns [true]; the map is empty and the counter
    is back to 1. *)
Theorem sim_perform_blocking_returns (n fuel : nat)
    (self : MultiDownloadHelper Sim.SimMulti) :
  settled self →
  msgs_in_queue self ≠ 0%Z →
  within n self →
  n + length (Sim.transfers (mhandle self)) + 2 ≤ fuel →
  ∃ self', perform_blocking fuel self = Returned (true, self')
           ∧ helpers self' = ∅ ∧ msgs_in_queue self' = 1%Z.
Proof.
  intros Hs Hq Hn Hfuel.
  destruct (transfer_loop_finishes n fuel self Hs) as (self1 & Hrun & Hempty);
    [done | done | done |].
  unfold perform_blocking. rewrite Hrun.
  rewrite bool_decide_eq_true_2 by done.
  eexists. split; [reflexivity|]. simpl. done.
Qed.

(** The constructor and [add_helper] give settled states. *)
Lemma settled_new (lat : nat → nat) : settled (new_MultiDownloadHelper lat 0).
Proof.
  unfold settled; simpl. split_and!; try done.
  - constructor.
  - intros h. rewrite lookup_empty. split; [by intros [? ?] | by intros ?%elem_of_nil].
Qed.

Lemma settled_add_helper (helper : DownloadHelper)
    (self : MultiDownloadHelper Sim.SimMulti) :
  settled self → settled (add_helper helper self).
Proof.
  intros (Hfault & Hinbox & Hnd & Hrun & Hdom).
  unfold settled, add_helper, map_insert; simpl. unfold Sim.add_handle.
  set (k := easy_id (handle helper)).
  case_bool_decide as Hk.
  - destruct (proj2 (Hdom k) Hk) as [v Hv]. rewrite Hv. done.
  - assert (Hnone : helpers self !! k = None).
    { apply eq_None_not_Some. by rewrite Hdom. }
    rewrite Hnone. simpl. rewrite fmap_app. simpl.
    split_and!; try done.
    + apply NoDup_app. split_and!; [done | | apply NoDup_singleton].
      intros h Hh ->%list_elem_of_singleton. done.
    + apply Forall_app. split; [done|]. apply Forall_singleton. simpl. eauto.
    + intros h. rewrite elem_of_app, list_elem_of_singleton, <- Hdom.
      destruct (decide (h = k)) as [->|Hne].
      * rewrite lookup_insert_eq. split; eauto.
      * rewrite lookup_insert_ne by done. split; [eauto | by intros [?|?]].
Qed.

Lemma within_add_helper (n : nat) (helper : DownloadHelper)
    (self : MultiDownloadHelper Sim.SimMulti) :
  Sim.latency (mhandle self) (easy_id (handle helper)) < n →
  within n self → within n (add_helper helper self).
Proof.
  intros Hlat Hn. unfold within, add_helper; simpl. unfold Sim.add_handle.
  case_bool_decide; [done|]. simpl.
  apply Forall_app. split; [done|]. apply Forall_singleton.
  simpl. intros k [= <-]. done.
Qed.

Lemma add_helper_keeps (helper : DownloadHelper)
    (self : MultiDownloadHelper Sim.SimMulti) :
  msgs_in_queue (add_helper helper self) = msgs_in_queue self
  ∧ Sim.latency (mhandle (add_helper helper self))
    = Sim.latency (mhandle self).
Proof.
  unfold add_helper; simpl. unfold Sim.add_handle.
  by case_bool_decide.
Qed.

Lemma register_all_settled (n : nat) (hs : list DownloadHelper) :
  ∀ self : MultiDownloadHelper Sim.SimMulti,
    settled self →
    within n self →
    (∀ h, h ∈ hs → Sim.latency (mhandle self) (easy_id (handle h)) < n) →
    settled (register_all hs self)
    ∧ within n (register_all hs self)
    ∧ msgs_in_queue (register_all hs self) = msgs_in_queue self.
Proof.
  induction hs as [|h hs IH]; intros self Hs Hn Hlat; [done|].
  simpl. destruct (add_helper_keeps h self) as [Hq Hl].
  destruct (IH (add_helper h self)) as (H1 & H2 & H3).
  - by apply settled_add_helper.
  - apply within_add_helper; [apply Hlat; left | done].
  - intros h' Hh'. rewrite Hl. apply Hlat. by right.
  - rewrite H3, Hq. done.
Qed.

(** Whatever helpers are registered with a fresh, healthy multi handle,
    and however long each transfer takes, [perform_blocking] returns
    [true] and leaves the map empty. *)
Theorem healthy_run_completes (lat : nat → nat) (hs : list DownloadHelper) :
  ∃ fuel self',
    perform_blocking fuel (register_all hs (new_MultiDownloadHelper lat 0))
    = Returned (true, self')
    ∧ helpers self' = ∅
    ∧ msgs_in_queue self' = 1%Z.
Proof.
  set (n := S (max_list ((λ h, lat (easy_id (handle h))) <$> hs))).
  destruct (register_all_settled n hs (new_MultiDownloadHelper lat 0))
    as (Hs & Hn & Hq).
  - apply settled_new.
  - apply Forall_nil_2.
  - intros h Hh. simpl. unfold n.
    apply Nat.lt_succ_r, max_list_elem_of_le.
    by apply (list_elem_of_fmap_2 (λ h, lat (easy_id (handle h)))).
  - eexists. eapply sim_perform_blocking_returns; [exact Hs | | exact Hn | reflexivity].
    rewrite Hq. done.
Qed.

(** * Further properties *)

(** ** More bookkeeping *)

Lemma fwrite_static (buffer : bytes) (size nmemb : N) (s : FILEptr)
    (w : World) :
  let out := fwrite buffer size nmemb s w in
  next_file out.2 = next_file w
  ∧ fopen_errno out.2 = fopen_errno w
  ∧ net out.2 = net w.
Proof.
  unfold fwrite.
  destruct (size_mul size nmemb =? 0)%N; [done|].
  destruct (s ≫= _); done.
Qed.

Lemma call_write_static (fn : WriteFunction) (c : bytes) (size nmemb : N)
    (r : CurlResult) (w : World) :
  let out := call_write fn c size nmemb r w in
  next_file out.2 = next_file w
  ∧ fopen_errno out.2 = fopen_errno w
  ∧ net out.2 = net w.
Proof.
  destruct fn; simpl;
    unfold write_data_to_file_and_str, write_data_to_file, write_data_to_str;
    try done;
    pose proof (fwrite_static c size nmemb (file r) w) as Hw;
    destruct (fwrite c size nmemb (file r) w); simpl in *; assumption.
Qed.

Lemma deliver_static (fn : WriteFunction) (chunks : list bytes) :
  ∀ (r : CurlResult) (w : World),
    let out := deliver fn chunks r w in
    next_file out.2 = next_file w
    ∧ fopen_errno out.2 = fopen_errno w
    ∧ net out.2 = net w.
Proof.
  induction chunks as [|c rest IH]; intros r w; simpl; [done|].
  pose proof (call_write_static fn c 1%N (N.of_nat (length c)) r w) as Hs.
  destruct (call_write fn c 1%N (N.of_nat (length c)) r w) as [[n r'] w'].
  simpl in Hs. destruct Hs as (H1 & H2 & H3).
  destruct (n =? N.of_nat (length c))%N; simpl; [|done].
  destruct (IH r' w') as (I1 & I2 & I3). rewrite I1, I2, I3. done.
Qed.

(** A transport call opens and closes nothing and prints no line. *)
Lemma curl_easy_perform_quiet (self : DownloadHelper) (w : World) :
  let out := curl_easy_perform self w in
  opened_streams out.2 = opened_streams w
  ∧ closed_streams out.2 = closed_streams w
  ∧ stdout_lines out.2 = stdout_lines w
  ∧ stderr_lines out.2 = stderr_lines w
  ∧ next_file out.2 = next_file w
  ∧ fopen_errno out.2 = fopen_errno w.
Proof.
  unfold curl_easy_perform.
  set (w0 := log (EvPerform (easy_id (handle self)) (opt_url (handle self))) w).
  assert (H0 : opened_streams w0 = opened_streams w
               ∧ closed_streams w0 = closed_streams w
               ∧ stdout_lines w0 = stdout_lines w
               ∧ stderr_lines w0 = stderr_lines w
               ∧ next_file w0 = next_file w
               ∧ fopen_errno w0 = fopen_errno w).
  { unfold opened_streams, closed_streams, stdout_lines, stderr_lines, w0, log.
    simpl. rewrite !omap_app. simpl. rewrite !app_nil_r. done. }
  destruct (opt_url (handle self)) as [url|]; simpl; [|done].
  destruct (net w !! url) as [resp|]; simpl; [|done].
  destruct (opt_writefunction (handle self)) as [fn|],
           (opt_writedata (handle self)); simpl; try done.
  - destruct (deliver_frame fn (body_chunks resp) (res self) w0) as (Ht & _ & _).
    destruct (deliver_static fn (body_chunks resp) (res self) w0) as (Hn & He & _).
    destruct (deliver fn (body_chunks resp) (res self) w0) as [[ok r] w1].
    simpl in Ht, Hn, He.
    unfold opened_streams, closed_streams, stdout_lines, stderr_lines in *.
    destruct ok; simpl; rewrite Ht, Hn, He; done.
  - unfold opened_streams, closed_streams, stdout_lines, stderr_lines in *.
    simpl. rewrite !omap_app. simpl. rewrite !app_nil_r. done.
Qed.

(** ** [perform], seen from outside *)

(** What [perform] does to the streams. *)
Lemma perform_streams (self : DownloadHelper) (w : World) :
  let out := perform self w in
  file (res out.1.2) = None
  ∧ closed_streams out.2
    = closed_streams w ++ match file (res self) with
                          | Some f => [f]
                          | None => []
                          end
  ∧ opened_streams out.2 = opened_streams w
  ∧ next_file out.2 = next_file w
  ∧ fopen_errno out.2 = fopen_errno w.
Proof.
  unfold perform.
  destruct (curl_easy_perform_frame self w) as (_ & Hf & _).
  destruct (curl_easy_perform_quiet self w) as (Ho & Hc & _ & _ & Hn & He).
  destruct (curl_easy_perform self w) as [[success self1] w1].
  simpl in Hf, Ho, Hc, Hn, He. rewrite <- Hf, <- Ho, <- Hc, <- Hn, <- He.
  unfold opened_streams, closed_streams, ERR, OUT_NEWLINE, log, fclose.
  destruct (file (res self1)) as [f|] eqn:Ef; simpl;
    destruct (negb _), (is_used _); simpl;
    rewrite ?omap_app; simpl; rewrite ?app_nil_r, <- ?app_assoc; simpl;
    split_and!; done.
Qed.

(** X1.  [perform] always leaves the stream pointer null.  If the pointer
    was set, that stream is closed by exactly one more [fclose] and is no
    longer open; if it was null, no [fclose] is made.  No stream is
    opened. *)
Theorem perform_stream_lifecycle (self : DownloadHelper) (w : World) :
  let out := perform self w in
  file (res out.1.2) = None
  ∧ closed_streams out.2
    = closed_streams w ++ match file (res self) with
                          | Some f => [f]
                          | None => []
                          end
  ∧ opened_streams out.2 = opened_streams w
  ∧ ∀ f, file (res self) = Some f → open_files out.2 !! f = None.
Proof.
  destruct (perform_streams self w) as (H1 & H2 & H3 & _).
  destruct (perform_closes_file self w) as [_ H4].
  split_and!; assumption.
Qed.

(** X2.  [perform] makes exactly one transport call and answers [true]
    exactly when that call gave [CURLE_OK].  On failure it writes the
    error buffer, as it is after the call, on the error stream, and on
    success it writes nothing there.  It prints one line feed when
    [is_used] is set and nothing otherwise. *)
Theorem perform_report (self : DownloadHelper) (w : World) :
  let call := curl_easy_perform self w in
  let out := perform self w in
  out.1.1 = Nat.eqb call.1.1 CURLE_OK
  ∧ perform_count out.2 = S (perform_count w)
  ∧ stderr_lines out.2
    = stderr_lines w ++ (if out.1.1 then [] else [errbuf call.1.2])
  ∧ stdout_lines out.2
    = stdout_lines w
      ++ (if is_used (progress_data self)
          then [String (Ascii.ascii_of_nat 10) ""] else []).
Proof.
  pose proof (perform_perform_count self w) as Hcount.
  unfold perform in *.
  destruct (curl_easy_perform_frame self w) as (_ & _ & _ & _ & Hp & _).
  destruct (curl_easy_perform_quiet self w) as (_ & _ & Hout & Herr & _).
  destruct (curl_easy_perform self w) as [[success self1] w1].
  simpl in Hp, Hout, Herr, Hcount |- *. rewrite <- Hp, <- Hout, <- Herr.
  split_and!; [| exact Hcount | |];
    unfold stdout_lines, stderr_lines, ERR, OUT_NEWLINE, log, fclose;
    destruct (file (res self1)) as [f|]; simpl;
    destruct (success =? CURLE_OK), (is_used (progress_data self1)); simpl;
    rewrite ?omap_app; simpl; rewrite ?app_nil_r, <- ?app_assoc; done.
Qed.

(** ** [set_options], seen from outside *)

(** X3.  Whatever the mode and whether or not it throws, [set_options]
    empties the in-memory string, points the handle at [url] and keeps
    the handle's identity, the error buffer and the progress data.  It
    makes no transport call, calls [fclose] on the previous stream
    pointer when that is not null, and leaves every file other than
    [path] as it was. *)
Theorem set_options_resets (mode : DownloadMode) (url path : string)
    (self : DownloadHelper) (w : World) :
  let out := set_options mode url path self w in
  str (res out.1.2) = []
  ∧ opt_url (handle out.1.2) = Some url
  ∧ easy_id (handle out.1.2) = easy_id (handle self)
  ∧ errbuf out.1.2 = errbuf self
  ∧ progress_data out.1.2 = progress_data self
  ∧ perform_count out.2 = perform_count w
  ∧ closed_streams out.2
    = closed_streams w ++ match file (res self) with
                          | Some f => [f]
                          | None => []
                          end
  ∧ ∀ p, p ≠ path → fs out.2 !! p = fs w !! p.
Proof.
  unfold set_options, fopen_wb.
  destruct mode; simpl;
    destruct (file (res self)) as [f|]; simpl;
    try destruct (fopen_errno w !! path) as [e|]; simpl;
    unfold closed_streams, perform_count, ERR, log, fclose; simpl;
    rewrite ?omap_app, ?List.filter_app, ?length_app; simpl;
    rewrite ?app_nil_r, <- ?app_assoc, ?Nat.add_0_r; simpl;
    split_and!; try done;
    intros p Hp; by rewrite lookup_insert_ne.
Qed.

(** X4.  In STR mode [set_options] cannot throw: it binds the string
    callback, opens no stream and leaves the file system alone.  The
    stream pointer keeps its value, also when it was not null and the
    stream has just been closed. *)
Theorem set_options_str (url path : string) (self : DownloadHelper)
    (w : World) :
  let out := set_options STR url path self w in
  out.1.1 = Return tt
  ∧ opt_writefunction (handle out.1.2) = Some WriteToStr
  ∧ opt_writedata (handle out.1.2) = true
  ∧ file (res out.1.2) = file (res self)
  ∧ fs out.2 = fs w
  ∧ opened_streams out.2 = opened_streams w.
Proof.
  unfold set_options. simpl.
  destruct (file (res self)) as [f|]; simpl; split_and!; try done.
  unfold opened_streams, fclose. simpl. rewrite omap_app. simpl.
  by rewrite app_nil_r.
Qed.

(** ** Whole downloads *)

(** The string callback takes every chunk and touches nothing else. *)
Lemma deliver_str (chunks : list bytes) :
  ∀ (r : CurlResult) (w : World),
    Forall (λ c, (N.of_nat (length c) < 2 ^ 64)%N) chunks →
    deliver WriteToStr chunks r w
    = (true, {| file := file r; str := str r ++ concat chunks |}, w).
Proof.
  induction chunks as [|c rest IH]; intros r w Hall; simpl.
  - rewrite app_nil_r. by destruct r.
  - apply Forall_cons in Hall as [Hc Hrest].
    unfold write_data_to_str. rewrite (size_mul_1_l _ Hc), N.eqb_refl.
    rewrite Nat2N.id, firstn_all, (IH _ _ Hrest). simpl.
    by rewrite <- app_assoc.
Qed.

(** X5.  A download in STR mode, by a helper whose stream pointer is
    null, from a URL that answers: afterwards [get_str] is the whole
    delivered body, whatever the final result code, the file system is
    as it was, no [fclose] has been made, and [perform] answers [true]
    exactly when the transfer ended with [CURLE_OK]. *)
Theorem str_download (url path : string) (self : DownloadHelper) (w : World)
    (resp : Response) :
  file (res self) = None →
  net w !! url = Some resp →
  Forall (λ c, (N.of_nat (length c) < 2 ^ 64)%N) (body_chunks resp) →
  let cfg := set_options STR url path self w in
  let out := perform cfg.1.2 cfg.2 in
  get_str out.1.2 = concat (body_chunks resp)
  ∧ fs out.2 = fs w
  ∧ closed_streams out.2 = closed_streams w
  ∧ out.1.1 = Nat.eqb (result resp) CURLE_OK.
Proof.
  intros Hnull Hnet Hall.
  assert (Hcfg : set_options STR url path self w
                 = (Return tt,
                    {| handle := setopt_WRITEDATA
                                   (setopt_WRITEFUNCTION WriteToStr
                                      (setopt_URL url
                                         (curl_easy_reset (handle self))));
                       res := {| file := None; str := [] |};
                       errbuf := errbuf self;
                       progress_data := progress_data self |}, w)).
  { unfold set_options. rewrite Hnull. reflexivity. }
  rewrite Hcfg. simpl.
  set (self1 := {| handle := setopt_WRITEDATA
                               (setopt_WRITEFUNCTION WriteToStr
                                  (setopt_URL url
                                     (curl_easy_reset (handle self))));
                   res := {| file := None; str := [] |};
                   errbuf := errbuf self;
                   progress_data := progress_data self |}).
  destruct (perform_keeps self1 w) as (Kfs & Kstr & _).
  destruct (perform_streams self1 w) as (_ & Kclosed & _).
  unfold get_str. rewrite Kfs, Kstr, Kclosed, perform_result.
  unfold curl_easy_perform. simpl. rewrite Hnet.
  rewrite (deliver_str _ _ _ Hall). simpl. by rewrite app_nil_r.
Qed.

Lemma str_download_witness :
  let self := (new_DownloadHelper online_world).1 in
  let cfg := set_options STR "http://mirror/a.json" "a.json" self online_world in
  let out := perform cfg.1.2 cfg.2 in
  get_str out.1.2 = hello
  ∧ fs out.2 = fs online_world
  ∧ closed_streams out.2 = closed_streams online_world
  ∧ out.1.1 = true.
Proof.
  apply (str_download "http://mirror/a.json" "a.json"
           (new_DownloadHelper online_world).1 online_world
           {| body_chunks := [[x68; x65]%byte; [x6c; x6c; x6f]%byte];
              result := CURLE_OK; errtext := "" |}).
  - reflexivity.
  - reflexivity.
  - repeat constructor.
Defined.

(** ** A helper used again and again *)

(** One download from a null stream pointer opens at most one stream,
    the next fresh one, and closes exactly what it opened. *)
Lemma download_streams (req : DownloadMode * string * string)
    (self : DownloadHelper) (w : World) :
  file (res self) = None →
  let out := download req self w in
  file (res out.1) = None
  ∧ ∃ k, opened_streams out.2 = opened_streams w ++ seq (next_file w) k
         ∧ closed_streams out.2 = closed_streams w ++ seq (next_file w) k
         ∧ next_file out.2 = next_file w + k.
Proof.
  intros Hnull. destruct req as [[mode url] path]. unfold download. simpl.
  assert (Hstr : mode = STR → ∃ self1,
            set_options mode url path self w = (Return tt, self1, w)
            ∧ file (res self1) = None).
  { intros ->. unfold set_options. rewrite Hnull. simpl. eauto. }
  assert (Hperf : ∀ self1 w1 k,
            file (res self1) = (if k is 0 then None else Some (next_file w)) →
            opened_streams w1 = opened_streams w ++ seq (next_file w) k →
            closed_streams w1 = closed_streams w →
            next_file w1 = next_file w + k →
            k ≤ 1 →
            let out := perform self1 w1 in
            file (res out.1.2) = None
            ∧ ∃ k, opened_streams out.2 = opened_streams w ++ seq (next_file w) k
                   ∧ closed_streams out.2
                     = closed_streams w ++ seq (next_file w) k
                   ∧ next_file out.2 = next_file w + k).
  { intros self1 w1 k Hf Ho Hc Hn Hk.
    destruct (perform_streams self1 w1) as (P1 & P2 & P3 & P4 & _).
    split; [done|]. exists k. rewrite P2, P3, P4, Hf, Ho, Hc, Hn.
    destruct k as [|[|k]]; [| | lia]; simpl; by rewrite ?app_nil_r. }
  assert (Hcase : mode ≠ STR ∨ mode = STR) by (destruct mode; auto).
  destruct Hcase as [Hmode|Hmode].
  - destruct (fopen_errno w !! path) as [e|] eqn:Herr.
    + unfold set_options, fopen_wb. rewrite Hnull, Herr.
      destruct mode; [| done |]; simpl; (split; [done|]); exists 0; simpl;
        unfold opened_streams, closed_streams, ERR, log; simpl;
        rewrite !omap_app; simpl; rewrite !app_nil_r; done.
    + destruct (set_options_opens mode url path self w Hmode Herr)
        as (Hret & _ & _ & _ & Hres & _).
      assert (Hw : opened_streams (set_options mode url path self w).2
                   = opened_streams w ++ [next_file w]
                   ∧ closed_streams (set_options mode url path self w).2
                     = closed_streams w
                   ∧ next_file (set_options mode url path self w).2
                     = S (next_file w)).
      { unfold set_options, fopen_wb. rewrite Hnull, Herr.
        destruct mode; [| done |]; simpl;
          unfold opened_streams, closed_streams; simpl;
          rewrite !omap_app; simpl; rewrite !app_nil_r; done. }
      destruct (set_options mode url path self w) as [[o self1] w1].
      simpl in Hret, Hres, Hw. destruct Hw as (Ho & Hc & Hn). subst o.
      pose proof (Hperf self1 w1 1) as Hp. simpl in Hp.
      destruct (perform self1 w1) as [[b self2] w2]. simpl in Hp |- *.
      apply Hp; [by rewrite Hres | done | done | lia | lia].
  - destruct (Hstr Hmode) as (self1 & -> & Hf).
    pose proof (Hperf self1 w 0) as Hp. simpl in Hp.
    destruct (perform self1 w) as [[b self2] w2]. simpl in Hp |- *.
    apply Hp; [done | by rewrite app_nil_r | done | lia | lia].
Qed.

Lemma downloads_cons (req : DownloadMode * string * string)
    (reqs : list (DownloadMode * string * string))
    (self : DownloadHelper) (w : World) :
  downloads (req :: reqs) self w
  = downloads reqs (download req self w).1 (download req self w).2.
Proof. unfold downloads. simpl. by destruct (download req self w). Qed.

(** X7.  A helper whose stream pointer is null and that is used for any
    number of downloads in a row, in any modes and whether or not they
    succeed, ends with a null pointer again; the streams closed during
    the run are exactly the streams opened during it, each once and in
    the same order, and destroying the helper afterwards closes nothing
    more. *)
Theorem downloads_close_what_they_open
    (reqs : list (DownloadMode * string * string)) :
  ∀ (self : DownloadHelper) (w : World),
    file (res self) = None →
    let out := downloads reqs self w in
    file (res out.1) = None
    ∧ (∃ k, opened_streams out.2 = opened_streams w ++ seq (next_file w) k
            ∧ closed_streams out.2 = closed_streams w ++ seq (next_file w) k)
    ∧ closed_streams (delete_DownloadHelper out.1 out.2)
      = closed_streams out.2.
Proof.
  assert (Hgen : ∀ (self : DownloadHelper) (w : World),
    file (res self) = None →
    let out := downloads reqs self w in
    file (res out.1) = None
    ∧ ∃ k, opened_streams out.2 = opened_streams w ++ seq (next_file w) k
           ∧ closed_streams out.2 = closed_streams w ++ seq (next_file w) k).
  { induction reqs as [|req reqs IH]; intros self w Hnull.
    - simpl. split; [done|]. exists 0. simpl. by rewrite !app_nil_r.
    - destruct (download_streams req self w Hnull) as (Hn1 & k1 & Ho1 & Hc1 & Hf1).
      rewrite downloads_cons.
      destruct (download req self w) as [self1 w1]. simpl in *.
      destruct (IH self1 w1 Hn1) as (Hn2 & k2 & Ho2 & Hc2).
      split; [done|]. exists (k1 + k2).
      rewrite Ho2, Hc2, Ho1, Hc1, Hf1, seq_app, <- !app_assoc. done. }
  intros self w Hnull. destruct (Hgen self w Hnull) as (Hn & Hk).
  split_and!; [done | done |].
  unfold delete_DownloadHelper. rewrite Hn.
  unfold closed_streams, log. simpl. rewrite omap_app. simpl.
  by rewrite app_nil_r.
Qed.

Lemma downloads_close_what_they_open_witness :
  let self := (new_DownloadHelper online_world).1 in
  let out := downloads [(FILE, "http://mirror/a.json", "a.json");
                        (STR, "http://mirror/a.json", "a.json");
                        (FILE_AND_STR, "http://nowhere.invalid/", "b.json")]
                       self online_world in
  file (res out.1) = None
  ∧ (∃ k, opened_streams out.2
          = opened_streams online_world ++ seq (next_file online_world) k
          ∧ closed_streams out.2
            = closed_streams online_world ++ seq (next_file online_world) k)
  ∧ closed_streams (delete_DownloadHelper out.1 out.2) = closed_streams out.2.
Proof.
  apply (downloads_close_what_they_open
           [(FILE, "http://mirror/a.json", "a.json");
            (STR, "http://mirror/a.json", "a.json");
            (FILE_AND_STR, "http://nowhere.invalid/", "b.json")]
           (new_DownloadHelper online_world).1 online_world).
  reflexivity.
Defined.



(** ** The cache of [download_cached_file] *)

(** Writing never removes a file. *)
Lemma fwrite_keeps_files (buffer : bytes) (size nmemb : N) (s : FILEptr)
    (w : World) (p : string) :
  is_Some (fs w !! p) → is_Some (fs (fwrite buffer size nmemb s w).2 !! p).
Proof.
  intros Hp. unfold fwrite.
  destruct (size_mul size nmemb =? 0)%N; [done|].
  destruct (s ≫= _) as [path|]; [|done]. simpl.
  rewrite lookup_alter. case_decide; [subst; by apply fmap_is_Some | done].
Qed.

Lemma deliver_keeps_files (fn : WriteFunction) (chunks : list bytes)
    (p : string) :
  ∀ (r : CurlResult) (w : World),
    is_Some (fs w !! p) → is_Some (fs (deliver fn chunks r w).2 !! p).
Proof.
  induction chunks as [|c rest IH]; intros r w Hp; simpl; [done|].
  assert (Hstep : is_Some
            (fs (call_write fn c 1%N (N.of_nat (length c)) r w).2 !! p)).
  { destruct fn; simpl;
      unfold write_data_to_file_and_str, write_data_to_file,
             write_data_to_str;
      try done;
      pose proof (fwrite_keeps_files c 1%N (N.of_nat (length c)) (file r) w p Hp);
      destruct (fwrite c 1 (N.of_nat (length c)) (file r) w); done. }
  destruct (call_write fn c 1%N (N.of_nat (length c)) r w) as [[n r'] w'].
  simpl in Hstep. destruct (n =? N.of_nat (length c))%N; [by apply IH | done].
Qed.

Lemma perform_keeps_files (self : DownloadHelper) (w : World) (p : string) :
  is_Some (fs w !! p) → is_Some (fs (perform self w).2 !! p).
Proof.
  intros Hp. destruct (perform_keeps self w) as (-> & _).
  unfold curl_easy_perform.
  destruct (opt_url (handle self)) as [url|]; simpl; [|done].
  destruct (net w !! url) as [resp|]; simpl; [|done].
  destruct (opt_writefunction (handle self)) as [fn|],
           (opt_writedata (handle self)); simpl; try done.
  pose proof (deliver_keeps_files fn (body_chunks resp) p (res self)
                (log (EvPerform (easy_id (handle self)) (Some url)) w) Hp) as Hd.
  destruct (deliver fn (body_chunks resp) (res self) _) as [[ok r] w1].
  by destruct ok.
Qed.

(** X9.  After a call of [download_cached_file] that found no file and
    could open one, the file exists, whatever became of the transfer:
    every later call for the same path, with any URL, returns what the
    file holds (or the empty string) without touching the helper or the
    world.  When the host of the first call did not resolve, what later
    calls return is the empty string. *)
Theorem download_cached_file_then_hit (url path : string)
    (download_str : bool) (helper : DownloadHelper) (w : World) :
  file_exists path w = false →
  fopen_errno w !! path = None →
  let first := download_cached_file url path download_str helper w in
  ∃ content : bytes,
    fs first.2 !! path = Some content
    ∧ (net w !! url = None → content = [])
    ∧ ∀ (url' : string) (want : bool),
        download_cached_file url' path want first.1.2 first.2
        = (Return (if want then content else []), first.1.2, first.2).
Proof.
  intros Hmiss Hok. unfold download_cached_file at 1. rewrite Hmiss.
  set (mode := if download_str then FILE_AND_STR else FILE).
  assert (Hmode : mode ≠ STR) by (unfold mode; by destruct download_str).
  destruct (download_to_file mode url path helper w Hmode Hok)
    as (Hret & _ & _ & _ & Hnone & _).
  destruct (set_options_opens mode url path helper w Hmode Hok)
    as (_ & _ & _ & _ & _ & _ & Hfs & _).
  destruct (set_options mode url path helper w) as [[o helper1] w1].
  simpl in Hret, Hnone, Hfs. subst o.
  pose proof (perform_keeps_files helper1 w1 path) as Hkeep.
  destruct (perform helper1 w1) as [[b helper2] w2].
  simpl in Hnone, Hkeep |- *.
  destruct Hkeep as [content Hc]; [by rewrite Hfs|].
  exists content. split_and!; [done | |].
  - intros Hn. specialize (Hnone Hn). congruence.
  - intros url' want. unfold download_cached_file, file_exists, read_file.
    rewrite bool_decide_eq_true_2 by (rewrite Hc; eauto).
    rewrite Hc. by destruct want.
Qed.

Lemma download_cached_file_then_hit_witness :
  let first := download_cached_file "http://nowhere.invalid/" "a.json" true
                 (new_DownloadHelper quiet_world).1 quiet_world in
  ∃ content : bytes,
    fs first.2 !! "a.json" = Some content
    ∧ (net quiet_world !! "http://nowhere.invalid/" = None → content = [])
    ∧ ∀ (url' : string) (want : bool),
        download_cached_file url' "a.json" want first.1.2 first.2
        = (Return (if want then content else []), first.1.2, first.2).
Proof.
  apply (download_cached_file_then_hit "http://nowhere.invalid/" "a.json" true
           (new_DownloadHelper quiet_world).1 quiet_world).
  - reflexivity.
  - reflexivity.
Defined.

(** X10.  When the file is absent and cannot be opened either,
    [download_cached_file] lets the [FileOpenError] of [set_options]
    through: no transport call is made, the helper is left with a null
    stream pointer, and the path is still absent, so that the next call
    tries again. *)
Theorem download_cached_file_open_failure (url path : string)
    (download_str : bool) (helper : DownloadHelper) (w : World) (e : Z) :
  file_exists path w = false →
  fopen_errno w !! path = Some e →
  let out := download_cached_file url path download_str helper w in
  out.1.1 = Throw {| fo_path := path; fo_errno := e |}
  ∧ perform_count out.2 = perform_count w
  ∧ file (res out.1.2) = None
  ∧ file_exists path out.2 = false
  ∧ fopen_errno out.2 = fopen_errno w.
Proof.
  intros Hmiss Hfail. unfold download_cached_file. rewrite Hmiss.
  unfold set_options, fopen_wb, file_exists in *.
  destruct download_str, (file (res helper)) as [f|]; simpl;
    rewrite Hfail; simpl;
    unfold perform_count, ERR, log, fclose; simpl;
    rewrite ?List.filter_app, ?length_app; simpl;
    rewrite ?Nat.add_0_r; done.
Qed.

Lemma download_cached_file_open_failure_witness :
  let out := download_cached_file "http://mirror/a.json" "missing/a.json" true
               (new_DownloadHelper readonly_world).1 readonly_world in
  out.1.1 = Throw {| fo_path := "missing/a.json"; fo_errno := ENOENT |}
  ∧ perform_count out.2 = perform_count readonly_world
  ∧ file (res out.1.2) = None
  ∧ file_exists "missing/a.json" out.2 = false
  ∧ fopen_errno out.2 = fopen_errno readonly_world.
Proof.
  apply (download_cached_file_open_failure "http://mirror/a.json"
           "missing/a.json" true (new_DownloadHelper readonly_world).1
           readonly_world ENOENT).
  - reflexivity.
  - reflexivity.
Defined.

(** ** Registering helpers *)

Section MoreMultiProperties.
Context {M : Type} `{CurlMulti M}.

(** X11.  [add_helper] files the helper under its easy handle unless a
    helper is already filed there, in which case the map keeps the
    earlier one; no other entry changes.  [get_helper_count] grows by
    one in the first case and stays in the second. *)
Theorem add_helper_registers (helper : DownloadHelper)
    (self : MultiDownloadHelper M) :
  let k := easy_id (handle helper) in
  (∀ j, helpers (add_helper helper self) !! j
        = match helpers self !! j with
          | Some v => Some v
          | None => if decide (j = k) then Some helper else None
          end)
  ∧ get_helper_count (add_helper helper self)
    = if decide (is_Some (helpers self !! k))
      then get_helper_count self
      else S (get_helper_count self).
Proof.
  unfold add_helper, get_helper_count, map_insert. simpl.
  destruct (helpers self !! easy_id (handle helper)) as [v|] eqn:Hk.
  - split.
    + intros j. destruct (helpers self !! j) eqn:Hj; [done|].
      case_decide; [congruence | done].
    + rewrite decide_True by eauto. done.
  - split.
    + intros j. destruct (decide (j = easy_id (handle helper))) as [->|Hne].
      * by rewrite lookup_insert_eq, Hk.
      * rewrite lookup_insert_ne by done. by destruct (helpers self !! j).
    + rewrite decide_False by (by intros [? ?]).
      by apply map_size_insert_None.
Qed.

(** X12.  When the first round of the loop reports an error (the code of
    [curl_multi_perform] if nothing is running any more, that of
    [curl_multi_poll] otherwise), [perform_blocking] reads no completion
    message and deregisters nothing: with an empty map it returns
    [true], and with helpers registered its assertion fails. *)
Theorem perform_blocking_on_error (fuel : nat) (self : MultiDownloadHelper M)
    (code : nat) (running : Z) (mh : M) :
  msgs_in_queue self ≠ 0%Z →
  curl_multi_perform (mhandle self) (msgs_in_queue self)
  = (code, running, mh) →
  (if (running =? 0)%Z then code else (curl_multi_poll mh).1) ≠ 0 →
  perform_blocking (S fuel) self
  = if decide (helpers self = ∅)
    then Returned (true,
                   {| mhandle := if (running =? 0)%Z then mh
                                 else (curl_multi_poll mh).2;
                      helpers := helpers self;
                      msgs_in_queue := 1 |})
    else AssertionFailed.
Proof.
  intros Hq Hperf Herr. unfold perform_blocking. simpl.
  rewrite (proj2 (Z.eqb_neq _ _) Hq), Hperf.
  destruct (running =? 0)%Z.
  - rewrite (proj2 (Nat.eqb_neq _ _) Herr). simpl.
    case_bool_decide; [by rewrite decide_True | by rewrite decide_False].
  - destruct (curl_multi_poll mh) as [code' mh']. simpl in Herr |- *.
    rewrite (proj2 (Nat.eqb_neq _ _) Herr). simpl.
    case_bool_decide; [by rewrite decide_True | by rewrite decide_False].
Qed.

End MoreMultiProperties.

Lemma perform_blocking_on_error_witness :
  perform_blocking 1 (two_helpers CURLM_INTERNAL_ERROR) = AssertionFailed.
Proof.
  apply (perform_blocking_on_error 0 (two_helpers CURLM_INTERNAL_ERROR)
           CURLM_INTERNAL_ERROR 1%Z (mhandle (two_helpers CURLM_INTERNAL_ERROR))).
  - discriminate.
  - reflexivity.
  - discriminate.
Defined.

(** ** What a run does to the map, over any multi handle *)

Section LoopOnlyErases.
Context {M : Type} `{CurlMulti M}.

Lemma drain_erases (fuel : nat) :
  ∀ self s : MultiDownloadHelper M,
    drain fuel self = Returned s →
    helpers s ⊆ helpers self ∧ msgs_in_queue s = msgs_in_queue self.
Proof.
  induction fuel as [|fuel IH]; intros self s; simpl; [done|].
  destruct (curl_multi_info_read (mhandle self)) as [[[[] e]|] mh].
  - intros Hd. apply IH in Hd as [Hsub Hq]. simpl in *. done.
  - case_bool_decide; [|done].
    intros Hd. apply IH in Hd as [Hsub Hq]. simpl in *.
    split; [|done]. etrans; [exact Hsub | apply delete_subseteq].
  - intros Hd. apply IH in Hd as [Hsub Hq]. simpl in *. done.
  - intros [= <-]. done.
Qed.

(** X13.  A run of [perform_blocking] only ever erases entries of the map:
    whatever the multi handle answers, the map the loop ends with is
    part of the map it started with, with the same helper under each
    remaining handle. *)
Theorem transfer_loop_only_erases (fuel : nat) :
  ∀ self s : MultiDownloadHelper M,
    transfer_loop fuel self = Returned s →
    helpers s ⊆ helpers self.
Proof.
  induction fuel as [|fuel IH]; intros self s; simpl.
  - destruct (msgs_in_queue self =? 0)%Z; [by intros [= <-] | done].
  - destruct (msgs_in_queue self =? 0)%Z; [by intros [= <-]|].
    destruct (curl_multi_perform (mhandle self) (msgs_in_queue self))
      as [[code running] mh].
    destruct (if (running =? 0)%Z then (code, mh) else curl_multi_poll mh)
      as [code' mh'].
    destruct (negb (code' =? 0)); [by intros [= <-]|].
    destruct (drain fuel _) as [self2| |] eqn:Hd; [|done|done].
    intros Hloop. apply IH in Hloop. apply drain_erases in Hd as [Hsub _].
    simpl in Hsub. by etrans.
Qed.

End LoopOnlyErases.

Lemma transfer_loop_only_erases_witness :
  helpers {| mhandle := mhandle two_helpers_done; helpers := ∅;
             msgs_in_queue := 0 |}
  ⊆ helpers (two_helpers 0).
Proof.
  apply (transfer_loop_only_erases 10 (two_helpers 0)
           {| mhandle := mhandle two_helpers_done; helpers := ∅;
              msgs_in_queue := 0 |}).
  vm_compute. reflexivity.
Defined.

(** ** Running the same set again *)

Lemma within_exists (ts : list (nat * option nat)) :
  ∃ n, Forall (λ t, ∀ k, t.2 = Some k → k < n) ts.
Proof.
  induction ts as [|[h [k|]] ts [n IH]].
  - exists 0. constructor.
  - exists (max n (S k)). constructor.
    + simpl. intros k' [= <-]. lia.
    + eapply Forall_impl; [exact IH|]. simpl. intros t Ht k' Hk'.
      specialize (Ht k' Hk'). lia.
  - exists n. constructor; [by simpl | exact IH].
Qed.

(** From a settled state the loop ends in a settled state with nothing
    registered. *)
Lemma transfer_loop_settles (n : nat) :
  ∀ (fuel : nat) (self : MultiDownloadHelper Sim.SimMulti),
    settled self →
    (msgs_in_queue self = 0%Z → Sim.transfers (mhandle self) = []) →
    within n self →
    n + length (Sim.transfers (mhandle self)) + 2 ≤ fuel →
    ∃ self', transfer_loop fuel self = Returned self'
             ∧ settled self'
             ∧ Sim.transfers (mhandle self') = [].
Proof.
  induction n as [|n IH]; intros fuel self Hs Hzero Hn Hfuel.
  - assert (Hnil : Sim.transfers (mhandle self) = []).
    { destruct Hs as (_ & _ & _ & Hrun & _). unfold within in Hn.
      destruct (Sim.transfers (mhandle self)) as [|t rest]; [done|].
      apply Forall_cons in Hrun as [[k Hk] _].
      apply Forall_cons in Hn as [Hlt _]. specialize (Hlt k Hk). lia. }
    destruct (decide (msgs_in_queue self = 0%Z)) as [Hq|Hq].
    + exists self. destruct (transfer_loop_exit self fuel Hs Hq Hnil) as [Hexit _].
      split_and!; assumption.
    + destruct fuel as [|F]; [lia|].
      destruct (transfer_round self F Hs Hq) as
        (self2 & Hstep & Hs2 & Hz2 & _ & _ & Hq2); [rewrite Hnil; simpl; lia|].
      exists self2. rewrite Hstep.
      destruct (transfer_loop_exit self2 F Hs2 (Hq2 Hnil) (Hz2 (Hq2 Hnil)))
        as [Hexit _].
      split_and!; [exact Hexit | exact Hs2 | exact (Hz2 (Hq2 Hnil))].
  - destruct (decide (msgs_in_queue self = 0%Z)) as [Hq|Hq].
    + exists self.
      destruct (transfer_loop_exit self fuel Hs Hq (Hzero Hq)) as [Hexit _].
      split_and!; auto.
    + destruct fuel as [|F]; [lia|].
      destruct (transfer_round self F Hs Hq) as
        (self2 & Hstep & Hs2 & Hz2 & Hlen & Hwithin & _); [lia|].
      rewrite Hstep. apply IH; auto. lia.
Qed.

(** A run from any settled state whose loop is due to start returns
    [true] and leaves a settled state, ready for the next run. *)
Lemma settled_run (self : MultiDownloadHelper Sim.SimMulti) :
  settled self →
  msgs_in_queue self ≠ 0%Z →
  ∃ fuel self',
    perform_blocking fuel self = Returned (true, self')
    ∧ settled self'
    ∧ Sim.transfers (mhandle self') = []
    ∧ helpers self' = ∅
    ∧ msgs_in_queue self' = 1%Z.
Proof.
  intros Hs Hq.
  destruct (within_exists (Sim.transfers (mhandle self))) as [n Hn].
  destruct (transfer_loop_settles n _ self Hs ltac:(done) Hn (Nat.le_refl _))
    as (self1 & Hrun & Hs1 & Hnil).
  assert (Hempty : helpers self1 = ∅).
  { destruct Hs1 as (_ & _ & _ & _ & Hdom).
    apply map_empty. intros h. apply eq_None_not_Some.
    rewrite Hdom, Hnil. apply not_elem_of_nil. }
  eexists _, _. unfold perform_blocking. rewrite Hrun.
  rewrite bool_decide_eq_true_2 by done.
  split; [reflexivity|]. simpl. split_and!; done.
Qed.

(** X14.  A set on a multi handle that follows the libcurl contract and
    reports no error can be used again and again: whatever helpers are
    registered, and however long their transfers take, [perform_blocking]
    returns [true] with the map emptied, and after a second batch of
    helpers is registered in the state it left, it does so again. *)
Theorem healthy_set_is_reusable (lat : nat → nat)
    (hs1 hs2 : list DownloadHelper) :
  ∃ fuel1 s1 fuel2 s2,
    perform_blocking fuel1 (register_all hs1 (new_MultiDownloadHelper lat 0))
    = Returned (true, s1)
    ∧ get_helper_count s1 = 0
    ∧ perform_blocking fuel2 (register_all hs2 s1) = Returned (true, s2)
    ∧ get_helper_count s2 = 0
    ∧ msgs_in_queue s2 = 1%Z.
Proof.
  assert (Hreg : ∀ hs s, settled s → msgs_in_queue s = 1%Z →
            settled (register_all hs s)
            ∧ msgs_in_queue (register_all hs s) ≠ 0%Z).
  { intros hs s Hs Hq.
    destruct (within_exists (Sim.transfers (mhandle s))) as [n0 Hn0].
    set (n := max n0 (S (max_list ((λ h, Sim.latency (mhandle s)
                                           (easy_id (handle h))) <$> hs)))).
    destruct (register_all_settled n hs s Hs) as (H1 & _ & H3).
    - eapply Forall_impl; [exact Hn0|]. simpl. intros t Ht k Hk.
      specialize (Ht k Hk). lia.
    - intros h Hh.
      assert (Sim.latency (mhandle s) (easy_id (handle h))
              ≤ max_list ((λ h, Sim.latency (mhandle s)
                                  (easy_id (handle h))) <$> hs)).
      { apply max_list_elem_of_le.
        by apply (list_elem_of_fmap_2
                    (λ h, Sim.latency (mhandle s) (easy_id (handle h)))). }
      lia.
    - split; [done|]. rewrite H3, Hq. done. }
  destruct (Hreg hs1 (new_MultiDownloadHelper lat 0) (settled_new lat) eq_refl)
    as [Hs1 Hq1].
  destruct (settled_run _ Hs1 Hq1) as (fuel1 & s1 & Hrun1 & Hset1 & _ & He1 & Hm1).
  destruct (Hreg hs2 s1 Hset1 Hm1) as [Hs2 Hq2].
  destruct (settled_run _ Hs2 Hq2) as (fuel2 & s2 & Hrun2 & _ & _ & He2 & Hm2).
  exists fuel1, s1, fuel2, s2. unfold get_helper_count.
  rewrite He1, He2, map_size_empty. done.
Qed.

(** ** The progress bar *)

(** X15.  The bar always has ten segments: as many dots as [count]
    says, ten at most, followed by blanks. *)
Theorem render_bar_shape (count : N) :
  let dots := N.to_nat (N.min count 10) in
  String.list_ascii_of_string (render_bar count)
  = replicate dots "."%char ++ replicate (10 - dots) " "%char.
Proof.
  assert (Hmin : render_bar count = render_bar (N.min count 10)).
  { unfold render_bar, intervals. simpl.
    repeat match goal with
           | |- context [(?i <? count)%N] =>
               replace (i <? count)%N with (i <? N.min count 10)%N
                 by (destruct (N.ltb_spec i (N.min count 10)),
                              (N.ltb_spec i count); try done; lia)
           end.
    reflexivity. }
  simpl. rewrite Hmin.
  assert (Hcases : (N.min count 10 = 0 ∨ N.min count 10 = 1
                    ∨ N.min count 10 = 2 ∨ N.min count 10 = 3
                    ∨ N.min count 10 = 4 ∨ N.min count 10 = 5
                    ∨ N.min count 10 = 6 ∨ N.min count 10 = 7
                    ∨ N.min count 10 = 8 ∨ N.min count 10 = 9
                    ∨ N.min count 10 = 10)%N) by lia.
  repeat destruct Hcases as [-> | Hcases]; try rewrite Hcases; reflexivity.
Qed.

(** X16.  Whenever its result is defined, [progress_callback] tells
    libcurl to go on with the transfer.  It prints nothing while either
    amount is zero, and otherwise rewrites the line once, with the title
    followed by a bar between brackets. *)
Theorem progress_callback_continues (data : ProgressData)
    (dltotal dlnow ultotal ulnow : float) (w : World) :
  match progress_callback data dltotal dlnow ultotal ulnow w with
  | Some (ret, w') =>
      ret = CURL_PROGRESSFUNC_CONTINUE
      ∧ (if PrimFloat.eqb dltotal 0 || PrimFloat.eqb dlnow 0
         then w' = w
         else ∃ count,
                repl_lines w'
                = repl_lines w
                  ++ [title data +:+ "[" +:+ render_bar count +:+ "]"])
  | None => True
  end.
Proof.
  unfold progress_callback.
  destruct (PrimFloat.eqb dltotal 0), (PrimFloat.eqb dlnow 0); simpl;
    try done.
  destruct (round_to_uint _) as [count|]; [|done].
  split; [done|]. exists count.
  unfold repl_lines, OUT_REPL, log. simpl. by rewrite omap_app.
Qed.

(** X17.  With [dlnow / dltotal] equal to one half the bar shows five
    dots and five blanks; with the quotient equal to one it shows ten
    dots. *)
Theorem progress_callback_half_and_full (data : ProgressData)
    (dltotal dlnow ultotal ulnow : float) (w : World) :
  PrimFloat.eqb dltotal 0 = false →
  PrimFloat.eqb dlnow 0 = false →
  ((dlnow / dltotal)%float = 0.5%float →
   progress_callback data dltotal dlnow ultotal ulnow w
   = Some (CURL_PROGRESSFUNC_CONTINUE,
           OUT_REPL (title data +:+ "[.....     ]") w))
  ∧ ((dlnow / dltotal)%float = 1%float →
     progress_callback data dltotal dlnow ultotal ulnow w
     = Some (CURL_PROGRESSFUNC_CONTINUE,
             OUT_REPL (title data +:+ "[..........]") w)).
Proof.
  intros Ht Hn. unfold progress_callback. rewrite Ht, Hn.
  split; intros ->; reflexivity.
Qed.

Lemma progress_callback_half_and_full_witness :
  progress_callback {| style := 0; title := "a.json "; is_used := true |}
                    2048 1024 0 0 quiet_world
  = Some (CURL_PROGRESSFUNC_CONTINUE,
          OUT_REPL "a.json [.....     ]" quiet_world)
  ∧ progress_callback {| style := 0; title := "a.json "; is_used := true |}
                      2048 2048 0 0 quiet_world
    = Some (CURL_PROGRESSFUNC_CONTINUE,
            OUT_REPL "a.json [..........]" quiet_world).
Proof.
  split.
  - apply (progress_callback_half_and_full
             {| style := 0; title := "a.json "; is_used := true |}
             2048 1024 0 0 quiet_world); reflexivity.
  - apply (progress_callback_half_and_full
             {| style := 0; title := "a.json "; is_used := true |}
             2048 2048 0 0 quiet_world); reflexivity.
Defined.

(** ** lib/util.hh: [fandr] and [vec_slice] *)

Section UtilProperties.
Context {A : Type} `{EqDecision A}.

Lemma find_unfold (s needle : list A) :
  Util.find s needle
  = if decide (needle `prefix_of` s) then Some 0
    else match s with
         | [] => None
         | _ :: s' => S <$> Util.find s' needle
         end.
Proof. by destruct s. Qed.

(** [find] points at an occurrence. *)
Lemma find_sound (s needle : list A) :
  ∀ p, Util.find s needle = Some p →
       s = take p s ++ needle ++ drop (p + length needle) s
       ∧ p + length needle ≤ length s.
Proof.
  induction s as [|a s IH]; intros p; rewrite find_unfold; case_decide as Hpre.
  - intros [= <-]. apply prefix_nil_inv in Hpre as ->. done.
  - done.
  - intros [= <-]. destruct Hpre as [k Hk]. rewrite Hk. simpl.
    rewrite drop_app_length, length_app. split; [done | lia].
  - destruct (Util.find s needle) as [q|] eqn:Hq; [|done].
    intros [= <-]. destruct (IH q eq_refl) as [Hs Hlen]. simpl.
    split; [by f_equal | lia].
Qed.

(** No occurrence starts before the position [find] returns. *)
Lemma find_minimal (s needle : list A) :
  ∀ p, Util.find s needle = Some p →
       ∀ pre post, s = pre ++ needle ++ post → p ≤ length pre.
Proof.
  induction s as [|a s IH]; intros p; rewrite find_unfold; case_decide as Hpre.
  - intros [= <-] pre post _. lia.
  - done.
  - intros [= <-] pre post _. lia.
  - destruct (Util.find s needle) as [q|] eqn:Hq; [|done].
    intros [= <-] pre post Hs. destruct pre as [|b pre].
    + exfalso. apply Hpre. exists post. done.
    + simpl in Hs. injection Hs as -> Hs. simpl.
      specialize (IH q eq_refl pre post Hs). lia.
Qed.

(** [find] misses no occurrence. *)
Lemma find_complete (s needle : list A) :
  Util.find s needle = None → ∀ pre post, s ≠ pre ++ needle ++ post.
Proof.
  induction s as [|a s IH]; rewrite find_unfold; case_decide as Hpre; try done.
  - intros _ pre post Hs. apply Hpre.
    destruct pre; [exists post; done | done].
  - destruct (Util.find s needle) as [q|] eqn:Hq; [done|].
    intros _ pre post Hs. destruct pre as [|b pre].
    + apply Hpre. exists post. done.
    + simpl in Hs. injection Hs as -> Hs. by apply (IH eq_refl pre post).
Qed.

(** What [fandr] returns, by the answer of [find]. *)
Lemma fandr_by_find (source needle repl : list A) :
  Util.fandr source needle repl
  = Some match Util.find source needle with
         | Some p =>
             take p source ++ repl ++ drop (p + length needle) source
         | None => source
         end.
Proof.
  unfold Util.fandr.
  destruct (Util.find source needle) as [p|] eqn:Hfind; [|done].
  destruct (find_sound source needle p Hfind) as [_ Hlen].
  unfold Util.replace. rewrite decide_True by lia. done.
Qed.

(** X18.  [fandr] either finds no occurrence of [needle] anywhere in
    [source] and leaves [source] as it is, or it replaces by [repl] the
    occurrence that starts first and leaves everything before and after
    it, later occurrences included, as it was.  It never throws. *)
Theorem fandr_spec (source needle repl : list A) :
  (Util.fandr source needle repl = Some source
   ∧ ∀ pre post, source ≠ pre ++ needle ++ post)
  ∨ ∃ pre post,
      source = pre ++ needle ++ post
      ∧ (∀ pre' post', source = pre' ++ needle ++ post' →
                       length pre ≤ length pre')
      ∧ Util.fandr source needle repl = Some (pre ++ repl ++ post).
Proof.
  rewrite fandr_by_find.
  destruct (Util.find source needle) as [p|] eqn:Hfind.
  - right.
    destruct (find_sound source needle p Hfind) as [Hs Hlen].
    pose proof (find_minimal source needle p Hfind) as Hmin.
    exists (take p source), (drop (p + length needle) source).
    split_and!; [done | | done].
    intros pre' post' Hs'. rewrite length_take_le by lia. by eapply Hmin.
  - left. split; [done|]. by apply find_complete.
Qed.

(** X19.  Edge cases of [fandr].  The empty needle is found at the very
    start, so [repl] is put in front of [source]; replacing a needle by
    itself changes nothing; and whenever [fandr] changes [source], the
    length changes by the difference of the lengths of [repl] and
    [needle]. *)
Theorem fandr_edges (source needle repl : list A) :
  Util.fandr source [] repl = Some (repl ++ source)
  ∧ Util.fandr source needle needle = Some source
  ∧ ∃ r, Util.fandr source needle repl = Some r
         ∧ (r = source
            ∨ length r + length needle = length source + length repl).
Proof.
  split_and!.
  - rewrite fandr_by_find, find_unfold.
    rewrite decide_True by apply prefix_nil. simpl. by rewrite drop_0.
  - rewrite fandr_by_find.
    destruct (Util.find source needle) as [p|] eqn:Hfind; [|done].
    destruct (find_sound source needle p Hfind) as [Hs _]. by rewrite <- Hs.
  - rewrite fandr_by_find. eexists. split; [reflexivity|].
    destruct (Util.find source needle) as [p|] eqn:Hfind; [|by left].
    destruct (find_sound source needle p Hfind) as [_ Hlen].
    right. rewrite !length_app, length_take, length_drop. lia.
Qed.

(** X20.  [vec_slice] is defined exactly when the range lies inside the
    vector; the slice then has [len] elements, and its element [i] is
    element [start + i] of the vector. *)
Theorem vec_slice_spec (src : list A) (start len : nat) :
  match Util.vec_slice src start len with
  | Some s =>
      start + len ≤ length src
      ∧ length s = len
      ∧ ∀ i, i < len → s !! i = src !! (start + i)
  | None => length src < start + len
  end.
Proof.
  unfold Util.vec_slice. case_decide as Hin; [|lia].
  split_and!; [done | |].
  - rewrite length_take, length_drop. lia.
  - intros i Hi. by rewrite lookup_take_lt, lookup_drop.
Qed.

(** X21.  Slices compose: a slice of a slice is a slice of the vector,
    two adjacent slices put together are the slice that spans both, and
    the slice that spans the whole vector is the vector. *)
Theorem vec_slice_compose (src s : list A) (a b c d : nat) :
  Util.vec_slice src a b = Some s →
  c + d ≤ b →
  Util.vec_slice s c d = Util.vec_slice src (a + c) d
  ∧ (∀ t e, Util.vec_slice src (a + b) e = Some t →
            Util.vec_slice src a (b + e) = Some (s ++ t))
  ∧ Util.vec_slice src 0 (length src) = Some src.
Proof.
  unfold Util.vec_slice. case_decide as Hab; [|done].
  intros [= <-] Hcd.
  rewrite length_take, length_drop.
  split_and!.
  - rewrite decide_True by lia. rewrite decide_True by lia.
    f_equal. apply list_eq. intros i.
    destruct (decide (i < d)) as [Hi|Hi].
    + rewrite !lookup_take_lt, !lookup_drop by lia.
      rewrite lookup_take_lt, lookup_drop by lia. f_equal. lia.
    + rewrite !lookup_ge_None_2; [done | |];
        rewrite length_take; lia.
  - intros t e. case_decide as He; [|done]. intros [= <-].
    rewrite decide_True by lia. f_equal.
    rewrite <- (drop_drop src b a), take_take_drop. done.
  - rewrite decide_True by lia. simpl. by rewrite firstn_all.
Qed.

End UtilProperties.

Lemma vec_slice_compose_witness :
  Util.vec_slice [20; 30; 40] 1 2 = Util.vec_slice [10; 20; 30; 40; 50] 2 2
  ∧ (∀ t e, Util.vec_slice [10; 20; 30; 40; 50] 4 e = Some t →
            Util.vec_slice [10; 20; 30; 40; 50] 1 (3 + e)
            = Some ([20; 30; 40] ++ t))
  ∧ Util.vec_slice [10; 20; 30; 40; 50] 0 5 = Some [10; 20; 30; 40; 50].
Proof.
  apply (vec_slice_compose [10; 20; 30; 40; 50] [20; 30; 40] 1 3 1 2).
  - reflexivity.
  - lia.
Defined.
